(** * hpproj: projection of HEALPix maps onto planar WCS grids

    A shallow embedding of [hpproj/hp_helper.py] and [hpproj/cutsky.py].

    Python values are embedded as follows.
    - An exception is a constructor of [error]; a function that can raise
      returns a [result].
    - A header (a [dict] or a FITS header) is a finite map from keys to
      [value]s.
    - A numpy array is the list of its entries in row-major order; a 2-D
      array carries its shape next to that list.
    - Floating-point numbers and everything computed by numpy's numerics,
      healpy and astropy are kept abstract: they are the fields of the
      classes [Numeric], [Healpy] and [Astropy].  What a theorem needs to
      know about them is stated as a hypothesis of that theorem. *)

From Stdlib Require Import ZArith QArith Qround Lia Ascii String List.
From stdpp Require Import base option list gmap strings pretty sorting.

Local Open Scope string_scope.
Local Open Scope list_scope.
Local Open Scope Z_scope.

(** ** Exceptions and the error monad *)

Inductive error : Type :=
| NoCoordsys          (* ValueError("No COORDSYS in header") *)
| UnknownFrame        (* ValueError raised by equiv_celestial *)
| NoOrdering          (* ValueError("Np ordering in healpix header") *)
| UnknownOrdering     (* ValueError("Unknown ordering in healpix header") *)
| UnsupportedOrder    (* ValueError("Unsupported order for the interpolation") *)
| NoHealpixMap        (* FileNotFoundError("No healpix map to project") *)
| NoLonLat            (* ValueError("You must provide a lonlat argument") *)
| WrongPixelNumber    (* healpy: ValueError("Wrong pixel number ...") *)
| AssignMismatch      (* numpy: boolean-mask assignment of the wrong size *)
| KeyError (key : string)
| AttributeError (attr : string)
| IndexError
| TypeError
| IOError (filename : string).

Inductive result (A : Type) : Type :=
| Ok (a : A)
| Err (e : error).
Arguments Ok {A} a.
Arguments Err {A} e.

#[global] Instance result_ret : MRet result := @Ok.
#[global] Instance result_bind : MBind result := fun A B k r =>
  match r with
  | Ok a => k a
  | Err e => Err e
  end.

#[global] Instance result_fmap : FMap result := fun A B f r =>
  match r with
  | Ok a => Ok (f a)
  | Err e => Err e
  end.

(** ** Python values held by a header *)

Inductive value : Type :=
| VNone
| VBool (b : bool)
| VInt (z : Z)
| VStr (s : string).

#[global] Instance value_eq_dec : EqDecision value.
Proof. solve_decision. Defined.

(** Truth value of an object, as tested by [if x] and [not x]. *)
Definition truthy (v : value) : bool :=
  match v with
  | VNone => false
  | VBool b => b
  | VInt z => negb (z =? 0)
  | VStr s => negb (String.eqb s "")
  end.

(** [str(v)], which is what the conversion [%s] prints. *)
Definition py_str (v : value) : string :=
  match v with
  | VNone => "None"
  | VBool true => "True"
  | VBool false => "False"
  | VInt z => pretty z
  | VStr s => s
  end.

Abbreviation header := (gmap string value).

(** [h.get(k)] and [h.get(k, None)]. *)
Definition get (h : header) (k : string) : value := default VNone (h !! k).

(** [h[k]]. *)
Definition getitem (h : header) (k : string) : result value :=
  match h !! k with
  | Some v => Ok v
  | None => Err (KeyError k)
  end.

(** [str.lower], on the ASCII letters. *)
Definition lower_ascii (c : ascii) : ascii :=
  let n := N_of_ascii c in
  if ((65 <=? n) && (n <=? 90))%N then ascii_of_N (n + 32) else c.

Fixpoint lower (s : string) : string :=
  match s with
  | EmptyString => EmptyString
  | String c s' => String (lower_ascii c) (lower s')
  end.

(** [v.lower()]: only a [str] has the method. *)
Definition py_lower (v : value) : result string :=
  match v with
  | VStr s => Ok (lower s)
  | _ => Err (AttributeError "lower")
  end.

(** [x in l] for a list of strings. *)
Definition str_in (x : string) (l : list string) : bool :=
  existsb (String.eqb x) l.

(** ** Sky frames *)

(** The coordinate frames astropy can hand back for a celestial WCS.  The
    frames of a healpix header are [Galactic] and [ICRS] only, and neither
    has frame attributes, so [is_equivalent_frame] against one of them is
    equality of the frame class. *)
Inductive frame : Type := Galactic | ICRS | FK5 | FK4.

#[global] Instance frame_eq_dec : EqDecision frame.
Proof. solve_decision. Defined.

Definition frame_name (f : frame) : string :=
  match f with
  | Galactic => "galactic"
  | ICRS => "icrs"
  | FK5 => "fk5"
  | FK4 => "fk4"
  end.

Definition is_equivalent_frame (f g : frame) : bool := bool_decide (f = g).

Definition VALID_GALACTIC : list string := ["galactic"; "g"].
Definition VALID_EQUATORIAL : list string :=
  ["celestial2000"; "equatorial"; "eq"; "c"; "q"; "fk5"].

(** Modelled from the spec: [wcs_helper.equiv_celestial] is imported by
    [hp_helper.py] but its module is not part of the sources at hand.  The
    spec (4.1) has it recognise the synonyms of the Galactic family
    ("galactic", "G") and of the Equatorial family ("equatorial",
    "celestial2000", "EQ", "C"), whatever their case, and reject every other
    name, Ecliptic included.  The docstring of [hp_celestial] adds "Q" and
    the command line of [cutsky.py] offers "fk5". *)
Definition equiv_celestial (name : value) : result frame :=
  name ← py_lower name;
  if str_in name VALID_GALACTIC then Ok Galactic
  else if str_in name VALID_EQUATORIAL then Ok ICRS
  else Err UnknownFrame.

(** ** hp_helper.py: reading a healpix header *)

Definition hp_celestial (hp_header : header) : result frame :=
  let coordsys := get hp_header "COORDSYS" in
  if truthy coordsys then equiv_celestial coordsys
  else Err NoCoordsys.

Definition hp_is_nest (hp_header : header) : result bool :=
  let ordering := get hp_header "ORDERING" in
  if negb (truthy ordering) then Err NoOrdering
  else
    o ← py_lower ordering;
    if str_in o ["nested"; "nest"] then Ok true
    else
      o' ← py_lower ordering;
      if String.eqb o' "ring" then Ok false
      else Err UnknownOrdering.

(** A map as [build_hpmap] lists it: (filename, healpix map, header).  The
    middle component is the pixel data, or the path to read them from when
    memory is short. *)
Inductive map_data (F : Type) : Type :=
| OnDisk (path : string)
| InMemory (data : list F).
Arguments OnDisk {F} path.
Arguments InMemory {F} data.

Definition hp_map (F : Type) : Type := string * map_data F * header.

Definition hpmap_key {F} (m : hp_map F) : result string :=
  let i_header := m.2 in
  nside ← getitem i_header "NSIDE";
  ordering ← getitem i_header "ORDERING";
  f ← hp_celestial i_header;
  Ok (py_str nside +:+ "_" +:+ py_str ordering +:+ "_" +:+ frame_name f).

(** ** numpy arrays *)

(** A 2-D array: its shape (n_y, n_x) and its entries in row-major order. *)
Record ndarray (A : Type) : Type := mk_ndarray {
  shape : nat * nat;
  flat : list A
}.
Arguments mk_ndarray {A} shape flat.
Arguments shape {A} _.
Arguments flat {A} _.

(** [np.indices(shape)]: the row index and the column index of every entry. *)
Definition np_indices (shape : nat * nat) : list Z * list Z :=
  let '(n_y, n_x) := shape in
  (flat_map (fun y => replicate n_x y) (seqZ 0 (Z.of_nat n_y)),
   flat_map (fun _ => seqZ 0 (Z.of_nat n_x)) (seqZ 0 (Z.of_nat n_y))).

(** [a[mask]] for a boolean mask of the shape of [a]. *)
Fixpoint select {A} (mask : list bool) (a : list A) : list A :=
  match mask, a with
  | m :: mask', x :: a' => if m then x :: select mask' a' else select mask' a'
  | _, _ => []
  end.

Definition count_true (mask : list bool) : nat := length (filter (fun m => m = true) mask).

(** [a[i]] for one integer: a negative index counts from the end. *)
Definition np_index {A} (a : list A) (i : Z) : result A :=
  let n := Z.of_nat (length a) in
  let j := if i <? 0 then n + i else i in
  if (0 <=? j) && (j <? n) then
    match a !! Z.to_nat j with
    | Some x => Ok x
    | None => Err IndexError
    end
  else Err IndexError.

(** [a[ipix]] for an array of integers. *)
Definition np_take {A} (a : list A) (ipix : list Z) : result (list A) :=
  mapM (np_index a) ipix.

(** Writes [vals], in order, at the entries of [a] picked by [mask]. *)
Fixpoint put {A} (mask : list bool) (vals : list A) (a : list A) : list A :=
  match mask, a with
  | true :: mask', x :: a' =>
      match vals with
      | v :: vals' => v :: put mask' vals' a'
      | [] => x :: put mask' [] a'
      end
  | false :: mask', x :: a' => x :: put mask' vals a'
  | _, _ => a
  end.

(** [a[mask] = vals]: one value per picked entry, or a single value for all
    of them; numpy refuses any other size. *)
Definition np_setmask {A} (a : list A) (mask : list bool) (vals : list A)
  : result (list A) :=
  if bool_decide (length vals = count_true mask) then Ok (put mask vals a)
  else
    match vals with
    | [v] => Ok (put mask (replicate (count_true mask) v) a)
    | _ => Err AssignMismatch
    end.

(** A masked array [np.ma.array(data, mask=..., fill_value=...)]. *)
Record masked (A : Type) : Type := mk_masked {
  ma_data : list A;
  ma_mask : list bool;
  fill_value : A
}.
Arguments mk_masked {A} ma_data ma_mask fill_value.
Arguments ma_data {A} _.
Arguments ma_mask {A} _.
Arguments fill_value {A} _.

(** [m[mask] = vals] with plain (unmasked) values: the entries written are
    no longer masked. *)
Definition ma_setmask {A} (m : masked A) (mask : list bool) (vals : list A)
  : result (masked A) :=
  data ← np_setmask (ma_data m) mask vals;
  Ok (mk_masked data
        (zip_with (fun old sel => if sel : bool then false else old) (ma_mask m) mask)
        (fill_value m)).

(** [m.filled()]. *)
Definition ma_filled {A} (m : masked A) : list A :=
  zip_with (fun x hidden => if hidden : bool then fill_value m else x)
           (ma_data m) (ma_mask m).

(** [np.setxor1d(a, b)]: the sorted values found in exactly one of the two. *)
Definition setxor1d (a b : list Z) : list Z :=
  merge_sort Z.le
    (remove_dups (list_difference a b ++ list_difference b a)).

(** ** External collaborators *)

(** Floating-point numbers and numpy's arithmetic on them. *)
Class Numeric : Type := {
  float : Type;
  nan : float;
  zero : float;
  isnan : float -> bool;
  float_eqb : float -> float -> bool;     (* x == y *)
  radians : float -> float;               (* np.radians *)
  ninety_minus : float -> float;          (* 90 - x *)
  div_60 : float -> float;                (* x / 60. *)
  np_mean : list float -> float;
  np_std : list float -> float
}.

(** healpy. *)
Class Healpy `{Numeric} : Type := {
  vec : Type;
  dir2vec : float -> float -> vec;                    (* lonlat=True *)
  ang2pix : Z -> bool -> float -> float -> Z;         (* nside nest theta phi *)
  get_interp_val : list float -> bool -> float -> float -> float;
  query_disc : Z -> vec -> float -> bool -> list Z    (* inclusive=False *)
}.

(** astropy: a celestial WCS, with the frame [wcs_to_celestial_frame] finds
    for it, its pixel-to-world transform and its header; a 1-D WCS for the
    radius of a profile; the transform between frames. *)
Class Astropy `{Numeric} : Type := {
  WCS : Type;
  wcs_to_celestial_frame : WCS -> frame;
  wcs_pix2world : WCS -> Z -> Z -> float * float;     (* x y, origin 0 *)
  to_header : WCS -> list (string * value);
  WCS1D : Type;
  all_pix2world : WCS1D -> Q -> float;                (* origin 0 *)
  SkyCoord : Type;
  transform_to : frame -> frame -> float * float -> float * float
}.

(** [healpy.npix2nside]: the resolution of a map of [npix] pixels. *)
Definition npix2nside (npix : Z) : result Z :=
  let nside := Z.sqrt (npix / 12) in
  if 12 * nside * nside =? npix then Ok nside else Err WrongPixelNumber.

(** An integer argument handed to healpy. *)
Definition as_int (v : value) : result Z :=
  match v with
  | VInt z => Ok z
  | _ => Err TypeError
  end.

(** Modelled from the spec: the module [wcs_helper] ([get_lonlat],
    [build_wcs]) and the decorator [_hpmap] are imported by [hp_helper.py]
    but are not part of the sources at hand.  The spec keeps the
    construction of a planar grid out of scope: the grid is consumed as an
    opaque object.  [get_lonlat coord coordsys] gives the longitude and
    latitude of [coord] in the frame named by a header's COORDSYS;
    [build_WCS lonlat coordframe pixsize npix ctype] is the square grid of
    [cutsky.py], centred on [lonlat]. *)
Class WcsHelper `{Astropy} : Type := {
  get_lonlat : SkyCoord -> value -> result (float * float);
  build_WCS : float * float -> string -> float -> nat -> string -> WCS
}.

(** ** hp_helper.py: projections *)

Section hp_helper.
Context `{HP : Healpy} `{AP : !Astropy} `{WH : !WcsHelper}.

(** The pseudo ImageHDU the decorator [_hpmap] hands to the functions below:
    the pixels of the map and its header. *)
Record ImageHDU : Type := mk_hdu {
  hdu_data : list float;
  hdu_header : header
}.

Definition rotate_frame (alon alat : list float) (hp_header : header) (wcs : WCS)
  : result (list float * list float) :=
  frame_in ← hp_celestial hp_header;
  let frame_out := wcs_to_celestial_frame wcs in
  if negb (is_equivalent_frame frame_in frame_out) then
    let coords :=
      zip_with (fun lon lat => transform_to frame_out frame_in (lon, lat)) alon alat in
    Ok (coords.*1, coords.*2)
  else Ok (alon, alat).

(** The arrays [rotate_frame] hands back when the frames differ. *)
Definition rotated (frame_out frame_in : frame) (alon alat : list float)
  : list float * list float :=
  let coords :=
    zip_with (fun lon lat => transform_to frame_out frame_in (lon, lat)) alon alat in
  (coords.*1, coords.*2).

(** The bin edges of a profile: the radii at the pixel coordinates
    -0.5, 0.5, ..., shape_out - 0.5. *)
Definition r_edges (wcs : WCS1D) (shape_out : nat) : list float :=
  (fun k => all_pix2world wcs (inject_Z k - (1 # 2))%Q)
    <$> seqZ 0 (Z.of_nat shape_out + 1).

Definition hp_to_profile (hp_hdu : ImageHDU) (wcs : WCS1D) (coord : SkyCoord)
    (shape_out : nat) (std : bool) : result (list float * option (list float)) :=
  coordsys ← getitem (hdu_header hp_hdu) "COORDSYS";
  '(lon, lat) ← get_lonlat coord coordsys;
  let r_edge := r_edges wcs shape_out in
  nside ← getitem (hdu_header hp_hdu) "NSIDE";
  nest ← hp_is_nest (hdu_header hp_hdu);
  let v := dir2vec lon lat in
  nside ← as_int nside;
  let i_pix := (fun radius => query_disc nside v (radians radius) nest) <$> r_edge in
  (* Only keep the pixels which are only present in the outer radius *)
  let a_pix :=
    zip_with setxor1d (take (length i_pix - 1) i_pix) (drop 1 i_pix) in
  profile ← mapM (fun pix => np_mean <$> np_take (hdu_data hp_hdu) pix) a_pix;
  if negb std then Ok (profile, None)
  else
    std_profile ← mapM (fun pix => np_std <$> np_take (hdu_data hp_hdu) pix) a_pix;
    Ok (profile, Some std_profile).

(** The sky coordinates of the pixel centres, and the mask of those that
    lie inside the projected area. *)
Definition pixel_centres (wcs : WCS) (shape_out : nat * nat) : list (float * float) :=
  let '(y_tab, x_tab) := np_indices shape_out in
  zip_with (wcs_pix2world wcs) x_tab y_tab.

Definition inside (lonlat : float * float) : bool :=
  negb (isnan lonlat.1 || isnan lonlat.2).

Definition hp_to_wcs (hp_hdu : ImageHDU) (wcs : WCS) (shape_out : nat * nat)
    (order : Z) : result (ndarray float) :=
  let centres := pixel_centres wcs shape_out in
  let alon := centres.*1 in
  let alat := centres.*2 in
  (* mask for pixels lying outside of projected area *)
  let mask := inside <$> centres in
  let proj_map :=
    mk_masked (replicate (shape_out.1 * shape_out.2) zero) (negb <$> mask) nan in
  (* Determine if we need a rotation for different coordinate systems *)
  '(alon, alat) ← rotate_frame alon alat (hdu_header hp_hdu) wcs;
  (* Healpix conventions... *)
  let phi := radians <$> alon in
  let theta := (fun lat => radians (ninety_minus lat)) <$> alat in
  proj_map ←
    (if order =? 0 then
       nside ← npix2nside (Z.of_nat (length (hdu_data hp_hdu)));
       nest ← hp_is_nest (hdu_header hp_hdu);
       let ipix := zip_with (ang2pix nside nest) (select mask theta) (select mask phi) in
       vals ← np_take (hdu_data hp_hdu) ipix;
       ma_setmask proj_map mask vals
     else if order =? 1 then
       nest ← hp_is_nest (hdu_header hp_hdu);
       let vals :=
         zip_with (get_interp_val (hdu_data hp_hdu) nest)
                  (select mask theta) (select mask phi) in
       ma_setmask proj_map mask vals
     else Err UnsupportedOrder);
  Ok (mk_ndarray shape_out (ma_filled proj_map)).

Definition hp_to_wcs_ipx (hp_header : header) (wcs : WCS) (shape_out : nat * nat)
  : result (ndarray bool * list Z) :=
  let centres := pixel_centres wcs shape_out in
  let alon := centres.*1 in
  let alat := centres.*2 in
  (* mask for pixels lying outside of projected area *)
  let mask := inside <$> centres in
  nside ← getitem hp_header "NSIDE";
  (* Determine if we need a rotation for different coordinate systems *)
  '(alon, alat) ← rotate_frame alon alat hp_header wcs;
  (* Healpix conventions... *)
  let phi := radians <$> alon in
  let theta := (fun lat => radians (ninety_minus lat)) <$> alat in
  nest ← hp_is_nest hp_header;
  nside ← as_int nside;
  let ipix := zip_with (ang2pix nside nest) (select mask theta) (select mask phi) in
  Ok (mk_ndarray shape_out mask, ipix).

End hp_helper.

(** ** cutsky.py *)

(** What [cutsky.py] reads from disk and hands to its collaborators: the
    FITS header and the pixels of a healpix file, the rendering of a patch
    and its photometry. *)
Class Collaborators `{Numeric} : Type := {
  getheader : string -> result header;                  (* fits.getheader(f, 1) *)
  read_map : string -> result (list float);             (* hp.ma(hp.read_map(f)) *)
  png : Type;
  savefig : masked float -> list (string * value) -> png;
  phot : Type;
  aperture_photometry : masked float -> nat -> float -> phot
}.

Section cutsky.
Context `{HP : Healpy} `{AP : !Astropy} `{WH : !WcsHelper} `{CO : !Collaborators}.

Definition DEFAULT_npix : nat := 256.
Definition DEFAULT_coordframe : string := "galactic".
Definition DEFAULT_ctype : string := "TAN".

(** The two forms of the list of maps: the list of (filename, {opt}), and
    the older dictionary {legend: {'filename': ..., 'doContour': ...}}. *)
Inductive maps_arg : Type :=
| MapList (l : list (string * header))
| MapDict (d : gmap string header).

Definition as_str (v : value) : result string :=
  match v with
  | VStr s => Ok s
  | _ => Err TypeError
  end.

Definition to_new_maps (maps : gmap string header) : result (list (string * header)) :=
  mapM (fun '(key, entry) =>
          filename ← getitem entry "filename";
          filename ← as_str filename;
          let opt : header := {[ "legend" := VStr key ]} in
          let opt :=
            match entry !! "doContour" with
            | Some c => <[ "doContour" := c ]> opt
            | None => opt
            end in
          Ok (filename, opt))
       (map_to_list maps).

Definition build_hpmap (filenames : list string) (low_mem : bool)
  : result (list (hp_map float)) :=
  mapM (fun filename =>
          hp_header ← getheader filename;
          hp_map ← (if low_mem then Ok (OnDisk filename)
                    else InMemory <$> read_map filename);
          Ok (filename, hp_map, hp_header))
       filenames.

(** The generator [gen_hpmap]: one suspended read per map, run when the
    loop reaches it. *)
Definition gen_hpmap (maps : list (hp_map float)) : list (result (string * ImageHDU)) :=
  (fun '(filename, i_map, i_header) =>
     i_map ← match i_map with
             | OnDisk path => read_map path
             | InMemory data => Ok data
             end;
     Ok (filename, mk_hdu i_map i_header))
  <$> maps.

Fixpoint group_insert (key : string) (m : hp_map float)
    (groups : list (string * list (hp_map float))) : list (string * list (hp_map float)) :=
  match groups with
  | [] => [(key, [m])]
  | (k, ms) :: groups' =>
      if String.eqb k key then (k, ms ++ [m]) :: groups'
      else (k, ms) :: group_insert key m groups'
  end.

(** Modelled from the spec: [group_hpmap] is imported by [cutsky.py] from
    [hp_helper.py], whose version at hand does not define it.  The spec
    (3, 4.4) has it map each group key, [hpmap_key], to the list of the maps
    with that key, in first-seen order. *)
Definition group_hpmap (maps : list (hp_map float))
  : result (list (string * list (hp_map float))) :=
  foldl (fun groups m =>
           groups ← groups;
           key ← hpmap_key m;
           Ok (group_insert key m groups))
        (Ok []) maps.

(** One cut: its legend, the patch with its header, and what [cut_png] and
    [cut_phot] attach to it. *)
Record cut : Type := mk_cut {
  cut_legend : value;
  cut_patch : masked float;
  cut_header : list (string * value);
  cut_png_of : option png;
  cut_phot_of : option phot
}.

Record CutSky : Type := mk_CutSky {
  self_npix : nat;
  self_pixsize : float;
  self_ctype : string;
  self_maps : list (string * list (hp_map float));
  self_maps_selection : option (list value);
  self_cuts : option (list cut);
  self_lonlat : option (float * float);
  self_coordframe : string
}.

Definition CutSky_init (maps : option maps_arg) (npix : nat) (pixsize : float)
    (ctype : string) (low_mem : bool) : result CutSky :=
  match maps with
  | None => Err NoHealpixMap
  | Some maps =>
      maps ← match maps with
             | MapDict d => to_new_maps d
             | MapList l => Ok l
             end;
      (* Build an hp_map list and extend the headers of the maps with the
         optional values *)
      let filenames := maps.*1 in
      let opts := maps.*2 in
      hp_map ← build_hpmap filenames low_mem;
      let hp_map :=
        zip_with (fun '(filename, iMap, iHeader) (opt : header) =>
                    (filename, iMap, iHeader ∪ opt)) hp_map opts in
      (* group them by map properties for efficiencies reasons *)
      groups ← group_hpmap hp_map;
      Ok (mk_CutSky npix pixsize ctype groups None None None DEFAULT_coordframe)
  end.

(** [if self.maps_selection and legend not in self.maps_selection: continue] *)
Definition skipped (selection : option (list value)) (legend : value) : bool :=
  match selection with
  | Some [] | None => false
  | Some sel => negb (bool_decide (legend ∈ sel))
  end.

(** The inner loop of [cut_fits]: the maps of one group. *)
Fixpoint cut_group (self : CutSky) (w : WCS) (mask : list bool) (ipix : list Z)
    (items : list (result (string * ImageHDU))) (cuts : list cut) : result (list cut) :=
  match items with
  | [] => Ok cuts
  | item :: items' =>
      '(filename, hdu) ← item;
      let iMap := hdu_data hdu in
      let iHeader := hdu_header hdu in
      legend ← getitem iHeader "legend";
      (* Skip if not in the maps_selection *)
      if skipped (self_maps_selection self) legend then
        cut_group self w mask ipix items' cuts
      else
        let patch :=
          mk_masked (replicate (self_npix self * self_npix self) zero) (negb <$> mask) nan in
        vals ← np_take iMap ipix;
        patch ← ma_setmask patch mask vals;
        let header :=
          to_header w ++ [("filename", VStr filename); ("legend", legend)]
          ++ match iHeader !! "doContour" with
             | Some c => [("doContour", c)]
             | None => []
             end in
        cut_group self w mask ipix items'
          (cuts ++ [mk_cut legend patch header None None])
  end.

(** The outer loop of [cut_fits]: the groups.  The [hp_to_wcs_ipx] that
    [cutsky.py] calls takes the side [npix] of a square patch where the one
    of [hp_helper.py] takes its shape. *)
Fixpoint cut_groups (self : CutSky) (w : WCS)
    (groups : list (string * list (hp_map float))) (cuts : list cut) : result (list cut) :=
  match groups with
  | [] => Ok cuts
  | (group, maps) :: groups' =>
      (* a basic healpix header, common to all the maps in this group *)
      hp_header ← match maps with
                  | m :: _ => Ok m.2
                  | [] => Err IndexError
                  end;
      (* Extract mask & pixels, common for all healpix maps of this group *)
      '(mask, ipix) ← hp_to_wcs_ipx hp_header w (self_npix self, self_npix self);
      cuts ← cut_group self w (flat mask) ipix (gen_hpmap maps) cuts;
      cut_groups self w groups' cuts
  end.

Definition cut_fits (self : CutSky) (lonlat : float * float) (coordframe : string)
    (maps_selection : option (list value)) : result (CutSky * list cut) :=
  let self :=
    mk_CutSky (self_npix self) (self_pixsize self) (self_ctype self) (self_maps self)
              maps_selection (self_cuts self) (self_lonlat self)
              (self_coordframe self) in
  (* Center of projection *)
  _ ← equiv_celestial (VStr coordframe);
  (* Build the target WCS header *)
  let w := build_WCS lonlat coordframe (div_60 (self_pixsize self)) (self_npix self) (self_ctype self) in
  cuts ← cut_groups self w (self_maps self) [];
  Ok (mk_CutSky (self_npix self) (self_pixsize self) (self_ctype self) (self_maps self)
                maps_selection (Some cuts) (Some lonlat) coordframe,
      cuts).

(** The test that guards the cache of [cut_png] and [cut_phot]. *)
Definition lonlat_eqb (a : option (float * float)) (b : float * float) : bool :=
  match a with
  | Some a => float_eqb a.1 b.1 && float_eqb a.2 b.2
  | None => false
  end.

Definition same_cut (self : CutSky) (lonlat : float * float) (coordframe : string)
    (maps_selection : option (list value)) : bool :=
  lonlat_eqb (self_lonlat self) lonlat
  && String.eqb (self_coordframe self) coordframe
  && bool_decide (self_maps_selection self = maps_selection)
  && match self_cuts self with
     | Some (_ :: _) => true
     | _ => false
     end.

(** The first statement of [cut_png] and of [cut_phot]: retrieve the
    previously cut maps, or cut the maps. *)
Definition cut_or_reuse (self : CutSky) (lonlat : float * float) (coordframe : string)
    (maps_selection : option (list value)) : result (CutSky * list cut) :=
  if same_cut self lonlat coordframe maps_selection then
    Ok (self, default [] (self_cuts self))
  else
    cut_fits self lonlat coordframe None.

(** The cuts are shared with [self.cuts]: what is attached to one shows in
    the other. *)
Definition with_cuts (self : CutSky) (cuts : list cut) : CutSky :=
  mk_CutSky (self_npix self) (self_pixsize self) (self_ctype self) (self_maps self)
            (self_maps_selection self) (Some cuts) (self_lonlat self) (self_coordframe self).

Definition cut_png (self : CutSky) (lonlat : float * float) (coordframe : string)
    (maps_selection : option (list value)) : result (CutSky * list cut) :=
  '(self, cuts) ← cut_or_reuse self lonlat coordframe maps_selection;
  (* Plotting: wcs_proj = WCS(cuts[0]['fits']) *)
  _ ← match cuts with
      | c :: _ => Ok c
      | [] => Err IndexError
      end;
  let cuts :=
    (fun c => mk_cut (cut_legend c) (cut_patch c) (cut_header c)
                     (Some (savefig (cut_patch c) (cut_header c))) (cut_phot_of c))
    <$> cuts in
  Ok (with_cuts self cuts, cuts).

Definition cut_phot (self : CutSky) (lonlat : float * float) (coordframe : string)
    (maps_selection : option (list value)) : result (CutSky * list cut) :=
  '(self, cuts) ← cut_or_reuse self lonlat coordframe maps_selection;
  let cuts :=
    (fun c => mk_cut (cut_legend c) (cut_patch c) (cut_header c) (cut_png_of c)
                     (Some (aperture_photometry (cut_patch c) (self_npix self) (self_pixsize self))))
    <$> cuts in
  Ok (with_cuts self cuts, cuts).

Definition cutsky (lonlat : option (float * float)) (maps : option maps_arg)
    (patch : nat * float) (coordframe : string) (ctype : string) : result (list cut) :=
  match lonlat with
  | None => Err NoLonLat
  | Some lonlat =>
      match maps with
      | None => Err NoHealpixMap
      | Some maps =>
          maps ← match maps with
                 | MapDict d => to_new_maps d
                 | MapList l => Ok l
                 end;
          CutThoseMaps ← CutSky_init (Some (MapList maps)) patch.1 patch.2 ctype true;
          '(CutThoseMaps, result) ← cut_png CutThoseMaps lonlat coordframe None;
          '(CutThoseMaps, result) ← cut_phot CutThoseMaps lonlat coordframe None;
          Ok result
      end
  end.

End cutsky.

(** ** hp_helper.py: projection and profile at one position *)

(** Modelled from the spec: [build_wcs] and [build_wcs_profile] belong to
    the module [wcs_helper], which is not part of the sources at hand.  The
    spec (6) has the construction of a grid validate the name of the frame
    and the projection code, so [build_wcs] can fail; the grid of a profile
    depends on the pixel size alone. *)
Class WcsBuilder `{Astropy} : Type := {
  build_wcs : SkyCoord -> float -> nat * nat -> string -> string -> result WCS;
  build_wcs_profile : float -> WCS1D;
  to_header_1d : WCS1D -> list (string * value)
}.

Section hp_project.
Context `{HP : Healpy} `{AP : !Astropy} `{WH : !WcsHelper} `{WB : !WcsBuilder}.

(** The [fits.ImageHDU] of a projection is the pair of its data and of its
    header. *)
Definition hp_project (hp_hdu : ImageHDU) (coord : SkyCoord) (pixsize : float)
    (shape_out : nat * nat) (order : Z) (projection : string * string)
  : result (ndarray float * list (string * value)) :=
  let '(proj_sys, proj_type) := projection in
  wcs ← build_wcs coord pixsize shape_out proj_sys proj_type;
  proj_map ← hp_to_wcs hp_hdu wcs shape_out order;
  Ok (proj_map, to_header wcs).

Definition hp_profile (hp_hdu : ImageHDU) (coord : SkyCoord) (pixsize : float)
    (npix : nat) : result (list float * list (string * value)) :=
  let wcs := build_wcs_profile pixsize in
  profile ← hp_to_profile hp_hdu wcs coord npix false;
  Ok (profile.1, to_header_1d wcs).

End hp_project.

(** ** cutsky.py: combine_args *)

(** What the conversion of a radius into a number of pixels computes on
    floating-point numbers: [float(x)] of an integer and of a string, and
    [int(radius / (pixsize / 60))], which fails when the quotient is not a
    finite number. *)
Class FloatArith `{Numeric} : Type := {
  float_of_Z : Z -> float;
  float_of_str : string -> result float;
  int_of_ratio : float -> float -> result Z
}.

Section combine_args.
Context `{FA : FloatArith}.

(** The values the command line and the configuration file hold. *)
Inductive pyval : Type :=
| PNone
| PBool (b : bool)
| PInt (z : Z)
| PFloat (x : float)
| PStr (s : string)
| PMaps (l : list (string * header)).

Definition py_truthy (v : pyval) : bool :=
  match v with
  | PNone => false
  | PBool b => b
  | PInt z => negb (z =? 0)
  | PFloat x => negb (float_eqb x zero)
  | PStr s => negb (String.eqb s "")
  | PMaps l => match l with [] => false | _ => true end
  end.

(** [a or b]. *)
Definition py_or (a b : pyval) : pyval := if py_truthy a then a else b.

(** [float(v)]. *)
Definition py_float (v : pyval) : result float :=
  match v with
  | PBool b => Ok (float_of_Z (if b then 1 else 0))
  | PInt z => Ok (float_of_Z z)
  | PFloat x => Ok x
  | PStr s => float_of_str s
  | _ => Err TypeError
  end.

(** The attributes of the parsed command line that [combine_args] reads. *)
Record Namespace : Type := mk_Namespace {
  args_pixsize : pyval;
  args_coordframe : pyval;
  args_ctype : pyval;
  args_verbosity : pyval;
  args_radius : pyval;
  args_npix : pyval;
  args_maps : pyval;
  args_fits : pyval;
  args_png : pyval;
  args_votable : pyval;
  args_outdir : pyval
}.

(** [config.get(k)]. *)
Definition config_get (config : gmap string pyval) (k : string) : pyval :=
  default PNone (config !! k).

Definition DEFAULT_pixsize : pyval := PInt 1.
Definition logging_INFO : pyval := PInt 20.

(** What [combine_args] returns, the dictionary [output] spelled out, and
    the level it sets on the logger. *)
Record combined : Type := mk_combined {
  c_npix : pyval;
  c_pixsize : pyval;
  c_coordframe : pyval;
  c_ctype : pyval;
  c_maps : pyval;
  output_fits : pyval;
  output_png : pyval;
  output_votable : pyval;
  output_outdir : pyval;
  logger_level : pyval
}.

Definition combine_args (args : Namespace) (config : gmap string pyval)
  : result combined :=
  (* This is where the default arguments are set *)
  let pixsize :=
    py_or (py_or (args_pixsize args) (config_get config "pixsize")) DEFAULT_pixsize in
  let coordframe :=
    py_or (py_or (args_coordframe args) (config_get config "coordframe"))
          (PStr DEFAULT_coordframe) in
  let ctype :=
    py_or (py_or (args_ctype args) (config_get config "ctype")) (PStr DEFAULT_ctype) in
  let verbosity :=
    py_or (py_or (args_verbosity args) (config_get config "verbosity")) logging_INFO in
  (* npix and radius are mutually exclusive, thus if radius is set we need
     to compute npix *)
  args_npix ←
    (if py_truthy (args_radius args) then
       match args_radius args with
       | PFloat radius =>
           pixsize ← py_float pixsize;
           PInt <$> int_of_ratio radius pixsize
       | PInt radius =>
           pixsize ← py_float pixsize;
           PInt <$> int_of_ratio (float_of_Z radius) pixsize
       | PBool radius =>
           pixsize ← py_float pixsize;
           PInt <$> int_of_ratio (float_of_Z (if radius then 1 else 0)) pixsize
       | _ => Err TypeError
       end
     else Ok (args_npix args));
  let npix :=
    py_or (py_or args_npix (config_get config "npix"))
          (PInt (Z.of_nat DEFAULT_npix)) in
  let maps := py_or (py_or (args_maps args) (config_get config "maps")) PNone in
  let fits := py_or (py_or (args_fits args) (config_get config "fits")) (PBool false) in
  let png := py_or (py_or (args_png args) (config_get config "png")) (PBool false) in
  let votable :=
    py_or (py_or (args_votable args) (config_get config "votable")) (PBool false) in
  let outdir :=
    py_or (py_or (args_outdir args) (config_get config "outdir")) (PStr ".") in
  let png :=
    if negb (py_truthy (py_or (py_or fits png) votable)) then PBool true else png in
  Ok (mk_combined npix pixsize coordframe ctype maps fits png votable outdir
        verbosity).

End combine_args.

(** ** Vocabulary of the properties *)

(** The orderings [hp_is_nest] knows, compared case-insensitively. *)
Definition nested_names : list string := ["nested"; "nest"].
Definition is_nested_name (s : string) : Prop := lower s ∈ nested_names.
Definition is_ring_name (s : string) : Prop := lower s = "ring".

(** [no_char c s]: the character [c] does not occur in [s]. *)
Fixpoint no_char (c : ascii) (s : string) : Prop :=
  match s with
  | EmptyString => True
  | String x s' => x <> c /\ no_char c s'
  end.

(** The pixelization descriptor of the spec (3): the resolution, the
    ordering scheme, RING or NESTED, and the sky frame a header stands for. *)
Inductive scheme : Type := RING | NESTED.

Record PixelizationDescriptor : Type := mk_descriptor {
  resolution : Z;
  ordering_scheme : scheme;
  sky_frame : frame
}.

Definition descriptor_of (h : header) : result PixelizationDescriptor :=
  nside ← getitem h "NSIDE";
  nside ← as_int nside;
  nest ← hp_is_nest h;
  f ← hp_celestial h;
  Ok (mk_descriptor nside (if nest : bool then NESTED else RING) f).

(** The contract of [healpy.ang2pix]: a pixel of the sphere of resolution
    nside, which has 12 nside^2 of them. *)
Definition ang2pix_in_range `{Healpy} : Prop :=
  forall (nside : Z) (nest : bool) (theta phi : float),
    0 < nside -> 0 <= ang2pix nside nest theta phi < 12 * nside ^ 2.

(** The disc at the bin edge [k] of a profile: the pixels [query_disc]
    returns for the radius at the pixel coordinate k - 0.5. *)
Definition disc `{Healpy} `{!Astropy} (nside : Z) (nest : bool) (lon lat : float)
    (wcs : WCS1D) (k : nat) : list Z :=
  query_disc nside (dir2vec lon lat)
    (radians (all_pix2world wcs (inject_Z (Z.of_nat k) - (1 # 2))%Q)) nest.

(** The legends of the cuts a method returns. *)
Definition legends_of `{Healpy} `{!Astropy} `{!WcsHelper} `{!Collaborators}
    (r : result (CutSky * list cut)) : result (list value) :=
  (fun out : CutSky * list cut => cut_legend <$> out.2) <$> r.

(** The recipe the docstring of [hp_to_wcs_ipx] gives to build a map from
    the mask and the indices it returns, followed by the filling
    [hp_to_wcs] ends with:
      proj_map = np.ma.array(np.zeros(shape_out), mask=~mask, fill_value=np.nan)
      proj_map[mask] = healpix_map[ipix] *)
Definition project_with `{Numeric} (healpix_map : list float) (shape_out : nat * nat)
    (mask : ndarray bool) (ipix : list Z) : result (ndarray float) :=
  let proj_map :=
    mk_masked (replicate (shape_out.1 * shape_out.2) zero) (negb <$> flat mask) nan in
  vals ← np_take healpix_map ipix;
  proj_map ← ma_setmask proj_map (flat mask) vals;
  Ok (mk_ndarray shape_out (ma_filled proj_map)).

(** The options [to_new_maps] builds for the entry of a legend. *)
Definition converted (key : string) (entry : header) (new : string * header) : Prop :=
  entry !! "filename" = Some (VStr new.1) /\
  new.2 !! "legend" = Some (VStr key) /\
  new.2 !! "doContour" = entry !! "doContour" /\
  forall k, k <> "legend" -> k <> "doContour" -> new.2 !! k = None.

(** The legends of the maps of an instance, group after group and, in a
    group, in the order of the maps. *)
Definition map_legends `{Numeric}
    (groups : list (string * list (hp_map float))) : list value :=
  (fun m : hp_map float => get m.2 "legend") <$> concat groups.*2.

(** The maps a selection lets through: all of them when there is no
    selection or an empty one. *)
Definition selected (selection : option (list value)) (legend : value) : Prop :=
  skipped selection legend = false.

#[global] Instance selected_dec (selection : option (list value)) (legend : value) :
  Decision (selected selection legend).
Proof. unfold selected. apply _. Defined.

(** What [cut_fits] leaves in a cut: a patch of npix x npix entries with
    its mask, filled with not-a-number, a header that carries the legend,
    and neither image nor photometry yet. *)
Definition fresh_cut `{Healpy} `{!Astropy} `{!WcsHelper} `{!Collaborators}
    (npix : nat) (c : cut) : Prop :=
  length (ma_data (cut_patch c)) = (npix * npix)%nat /\
  length (ma_mask (cut_patch c)) = (npix * npix)%nat /\
  fill_value (cut_patch c) = nan /\
  ("legend", cut_legend c) ∈ cut_header c /\
  cut_png_of c = None /\ cut_phot_of c = None.

(** [cut_png] attaches an image to each cut, [cut_phot] a photometry, and
    they touch nothing else of it. *)
Definition same_patches `{Healpy} `{!Astropy} `{!WcsHelper} `{!Collaborators}
    (cuts cuts' : list cut) : Prop :=
  cut_legend <$> cuts' = cut_legend <$> cuts /\
  cut_patch <$> cuts' = cut_patch <$> cuts /\
  cut_header <$> cuts' = cut_header <$> cuts.


(** Two headers that stand for the same pixelization: the same NSIDE, and
    what [hp_is_nest] and [hp_celestial] read in them is the same. *)
Definition same_pixelization (h1 h2 : header) : Prop :=
  h1 !! "NSIDE" = h2 !! "NSIDE" /\
  hp_is_nest h1 = hp_is_nest h2 /\
  hp_celestial h1 = hp_celestial h2.




(** ** A small world to run the code in

    Integers stand for the floating-point numbers, [None] for
    not-a-number.  A grid maps the pixel (x, y) to the sky position (x, y),
    and leaves the pixels right of a bound outside the projected area.  The
    sphere of resolution nside has the pixels 0, ..., 12 nside^2 - 1. *)
Module Toy.

#[export] Instance numeric : Numeric := {|
  float := option Z;
  nan := None;
  zero := Some 0;
  isnan x := bool_decide (x = None);
  float_eqb x y :=
    match x, y with
    | Some a, Some b => a =? b
    | _, _ => false
    end;
  radians x := x;
  ninety_minus x := (fun a => 90 - a) <$> x;
  div_60 x := (fun a => a / 60) <$> x;
  np_mean l :=
    match l with
    | [] => None
    | _ => (fun s => s / Z.of_nat (length l))
             <$> foldr (fun x acc => a ← x; b ← acc; Some (a + b)) (Some 0) l
    end;
  np_std l := match l with [] => None | _ => Some 0 end
|}.

#[export] Instance healpy : Healpy := {|
  vec := option Z * option Z;
  dir2vec lon lat := (lon, lat);
  ang2pix nside nest theta phi :=
    (default 0 theta + default 0 phi) `mod` (12 * nside * nside);
  get_interp_val data nest theta phi :=
    default None
      (data !! Z.to_nat ((default 0 theta + default 0 phi)
                          `mod` Z.of_nat (length data)));
  query_disc nside v radius nest :=
    seqZ 0 (Z.min (default 0 radius) (12 * nside * nside))
|}.

#[export] Instance astropy : Astropy := {|
  WCS := frame * Z;
  wcs_to_celestial_frame w := w.1;
  wcs_pix2world w x y := if x <? w.2 then (Some x, Some y) else (None, None);
  to_header w := [("CTYPE1", VStr (frame_name w.1))];
  WCS1D := unit;
  all_pix2world _ q := Some (Qceiling q);
  SkyCoord := Z * Z;
  transform_to f g lonlat := (lonlat.2, lonlat.1)
|}.

Definition grid (f : frame) (bound : Z) : WCS := (f, bound).
Definition radius_grid : WCS1D := tt.
Definition origin : SkyCoord := (0, 0).

(** A uniform RING map of resolution 1, in Galactic coordinates. *)
Definition uniform_map (v : Z) : ImageHDU :=
  mk_hdu (replicate 12 (Some v))
    {[ "NSIDE" := VInt 1; "ORDERING" := VStr "RING"; "COORDSYS" := VStr "G" ]}.

(** A RING map of resolution 1 that holds 100 + p at the pixel p. *)
Definition ramp_map : ImageHDU :=
  mk_hdu (Some <$> seqZ 100 12)
    {[ "NSIDE" := VInt 1; "ORDERING" := VStr "RING"; "COORDSYS" := VStr "G" ]}.

#[export] Instance wcs_helper : WcsHelper := {|
  get_lonlat coord coordsys := Ok (Some coord.1, Some coord.2);
  build_WCS lonlat coordframe pixsize npix ctype :=
    (match equiv_celestial (VStr coordframe) with
     | Ok f => f
     | Err _ => Galactic
     end, Z.of_nat npix)
|}.

(** Every file of the toy disk is a RING map of resolution 1 in Galactic
    coordinates, with the value 7 at each of its 12 pixels. *)
#[export] Instance collaborators : Collaborators := {|
  getheader filename :=
    Ok ({[ "NSIDE" := VInt 1; "ORDERING" := VStr "RING";
           "COORDSYS" := VStr "G" ]} : header);
  read_map filename := Ok (replicate 12 (Some 7));
  png := unit;
  savefig patch header := tt;
  phot := unit;
  aperture_photometry patch npix pixsize := tt
|}.

(** Two maps of the toy disk, with the legends "a" and "b". *)
Definition two_maps : maps_arg :=
  MapList [("a.fits", {[ "legend" := VStr "a" ]});
           ("b.fits", {[ "legend" := VStr "b" ]})].

Definition centre : float * float := (Some 0, Some 0).

(** A fresh instance over [two_maps], for patches of 2 x 2 pixels. *)
Definition fresh : result CutSky :=
  CutSky_init (Some two_maps) 2 (Some 1) "TAN" true.

#[export] Instance wcs_builder : WcsBuilder := {|
  build_wcs coord pixsize shape_out proj_sys proj_type :=
    f ← equiv_celestial (VStr proj_sys); Ok (grid f (Z.of_nat shape_out.2));
  build_wcs_profile pixsize := radius_grid;
  to_header_1d w := [("CTYPE1", VStr "RADIUS")]
|}.

#[export] Instance float_arith : FloatArith := {|
  float_of_Z z := Some z;
  float_of_str s := Err TypeError;
  int_of_ratio radius pixsize :=
    match radius, pixsize with
    | Some r, Some p => if p =? 0 then Err TypeError else Ok (Z.quot (r * 60) p)
    | _, _ => Err TypeError
    end
|}.

(** A command line that gives nothing. *)
Definition no_args : Namespace :=
  mk_Namespace PNone PNone PNone PNone PNone PNone PNone
               (PBool false) (PBool false) (PBool false) PNone.

(** The instance [fresh] holds. *)
Definition fresh_self : CutSky :=
  match fresh with
  | Ok self => self
  | Err _ => mk_CutSky 2 (Some 1) "TAN" [] None None None "galactic"
  end.

(** Whether a method returned, and what it returned when it did. *)
Definition is_ok {A} (r : result A) : bool :=
  match r with
  | Ok _ => true
  | Err _ => false
  end.

Definition returned {A} (r : result A) (otherwise : A) : A :=
  match r with
  | Ok out => out
  | Err _ => otherwise
  end.

End Toy.

(** * Properties *)

(** ** The monad and the strings *)

Lemma bind_Ok {A B} (r : result A) (k : A -> result B) (b : B) :
  r ≫= k = Ok b <-> exists a, r = Ok a /\ k a = Ok b.
Proof.
  destruct r as [a|e]; simpl; split.
  - intros Hk. exists a. done.
  - intros (a' & [= <-] & Hk). done.
  - done.
  - intros (a' & [=] & _).
Qed.

Lemma bind_Err {A B} (r : result A) (k : A -> result B) (e : error) :
  r ≫= k = Err e <-> r = Err e \/ exists a, r = Ok a /\ k a = Err e.
Proof.
  destruct r as [a|e']; simpl; split.
  - intros Hk. right. by exists a.
  - intros [[=]|(a' & [= <-] & Hk)]. done.
  - intros [= ->]. by left.
  - intros [[= ->]|(a' & [=] & _)]. done.
Qed.

Lemma mapM_Ok {A B} (f : A -> result B) (l : list A) (k : list B) :
  mapM f l = Ok k <-> Forall2 (fun x y => f x = Ok y) l k.
Proof.
  revert k. induction l as [|x l IH]; intros k; simpl.
  - split.
    + intros [= <-]. constructor.
    + intros Hk. by inversion Hk.
  - split.
    + intros (y & Hy & (k' & Hk' & [= <-])%bind_Ok)%bind_Ok.
      constructor; [done|]. by apply IH.
    + intros Hk. inversion Hk as [|? y ? k' Hy Hk']; subst.
      apply bind_Ok. exists y. split; [done|].
      apply bind_Ok. exists k'. split; [by apply IH|done].
Qed.

Lemma mapM_Err {A B} (f : A -> result B) (l : list A) (e : error) :
  mapM f l = Err e -> exists x, x ∈ l /\ f x = Err e.
Proof.
  induction l as [|x l IH]; simpl; [done|].
  intros [Hx|(y & _ & [Hl|(k & _ & [=])]%bind_Err)]%bind_Err.
  - exists x. split; [apply list_elem_of_here|done].
  - destruct (IH Hl) as (x' & Hin & Hx'). exists x'.
    split; [by apply list_elem_of_further|done].
Qed.

Lemma mapM_total {A B} (f : A -> result B) (l : list A) :
  (forall x, x ∈ l -> exists y, f x = Ok y) -> exists k, mapM f l = Ok k.
Proof.
  induction l as [|x l IH]; intros Hf.
  - by exists [].
  - destruct (Hf x) as [y Hy]; [apply list_elem_of_here|].
    destruct IH as [k Hk].
    { intros x' Hx'. apply Hf. by apply list_elem_of_further. }
    exists (y :: k). simpl. rewrite Hy. simpl. rewrite Hk. done.
Qed.

Lemma str_in_spec (x : string) (l : list string) :
  str_in x l = true <-> x ∈ l.
Proof.
  unfold str_in. rewrite existsb_exists. split.
  - intros (y & Hy & Heq). apply String.eqb_eq in Heq. subst.
    by apply list_elem_of_In.
  - intros Hx. exists x. split; [by apply list_elem_of_In|apply String.eqb_refl].
Qed.

Lemma truthy_VStr (s : string) : truthy (VStr s) = true <-> s <> "".
Proof.
  simpl. rewrite negb_true_iff. split.
  - intros Hs ->. by rewrite String.eqb_refl in Hs.
  - intros Hs. by apply String.eqb_neq.
Qed.

(** ** hp_is_nest *)

Lemma hp_is_nest_falsy (h : header) :
  truthy (get h "ORDERING") = false -> hp_is_nest h = Err NoOrdering.
Proof. intros Hf. unfold hp_is_nest. by rewrite Hf. Qed.

Lemma hp_is_nest_str (h : header) (s : string) :
  h !! "ORDERING" = Some (VStr s) -> s <> "" ->
  hp_is_nest h =
    if str_in (lower s) nested_names then Ok true
    else if String.eqb (lower s) "ring" then Ok false
    else Err UnknownOrdering.
Proof.
  intros Hh Hs. unfold hp_is_nest, get. rewrite Hh. simpl default.
  apply truthy_VStr in Hs. rewrite Hs. simpl.
  fold nested_names. by destruct (str_in (lower s) nested_names).
Qed.

Lemma hp_is_nest_not_str (h : header) (v : value) :
  h !! "ORDERING" = Some v -> truthy v = true -> (forall s, v <> VStr s) ->
  hp_is_nest h = Err (AttributeError "lower").
Proof.
  intros Hh Hv Hs. unfold hp_is_nest, get. rewrite Hh. simpl default.
  rewrite Hv. simpl. destruct v; try done. by destruct (Hs s).
Qed.

Lemma ring_not_nested (s : string) : is_ring_name s -> ~ is_nested_name s.
Proof.
  unfold is_ring_name, is_nested_name, nested_names. intros ->.
  rewrite !elem_of_cons, elem_of_nil. intros [?|[?|[]]]; discriminate.
Qed.

(** C10: a header whose ORDERING is present but falsy (the empty string,
    [None], [False], 0) takes the "no ordering" branch of [hp_is_nest], not
    the "unknown ordering" one: the field is tested by truth value. *)
Theorem hp_is_nest_falsy_ordering (h : header) (v : value) :
  h !! "ORDERING" = Some v -> truthy v = false ->
  hp_is_nest h = Err NoOrdering /\ hp_is_nest h <> Err UnknownOrdering.
Proof.
  intros Hh Hv.
  assert (hp_is_nest h = Err NoOrdering) as ->; [|done].
  apply hp_is_nest_falsy. unfold get. by rewrite Hh.
Qed.

Lemma hp_is_nest_falsy_ordering_witness :
  let h : header := {[ "ORDERING" := VStr "" ]} in
  hp_is_nest h = Err NoOrdering /\ hp_is_nest h <> Err UnknownOrdering.
Proof.
  intros h. apply (hp_is_nest_falsy_ordering h (VStr "")); reflexivity.
Defined.

(** C8, as the code has it: [hp_is_nest] raises the missing-ordering error
    when ORDERING is absent or falsy (the empty string included); for a
    non-empty string it returns True exactly for "nested" and "nest" and
    False for "ring", compared case-insensitively, and raises the
    unknown-ordering error for every other non-empty string. *)
Theorem hp_is_nest_cases (h : header) :
  (h !! "ORDERING" = None -> hp_is_nest h = Err NoOrdering) /\
  (forall v, h !! "ORDERING" = Some v -> truthy v = false ->
     hp_is_nest h = Err NoOrdering) /\
  (forall s, h !! "ORDERING" = Some (VStr s) -> s <> "" ->
     (is_nested_name s -> hp_is_nest h = Ok true) /\
     (is_ring_name s -> hp_is_nest h = Ok false) /\
     (~ is_nested_name s -> ~ is_ring_name s ->
        hp_is_nest h = Err UnknownOrdering)) /\
  (hp_is_nest h = Ok true <->
     exists s, h !! "ORDERING" = Some (VStr s) /\ is_nested_name s).
Proof.
  assert (Hstr : forall s, h !! "ORDERING" = Some (VStr s) -> s <> "" ->
     (is_nested_name s -> hp_is_nest h = Ok true) /\
     (is_ring_name s -> hp_is_nest h = Ok false) /\
     (~ is_nested_name s -> ~ is_ring_name s ->
        hp_is_nest h = Err UnknownOrdering)).
  { intros s Hh Hs. rewrite (hp_is_nest_str h s Hh Hs).
    unfold is_nested_name, is_ring_name.
    destruct (str_in (lower s) nested_names) eqn:Hn.
    - apply str_in_spec in Hn. repeat split; try done.
      intros Hr. by destruct (ring_not_nested s Hr).
    - assert (lower s ∉ nested_names) as Hn'.
      { intros Hin. apply str_in_spec in Hin. congruence. }
      destruct (String.eqb (lower s) "ring") eqn:Hr.
      + apply String.eqb_eq in Hr. repeat split; done.
      + apply String.eqb_neq in Hr. repeat split; done. }
  split; [|split; [|split; [exact Hstr|]]].
  - intros Hh. apply hp_is_nest_falsy. unfold get. by rewrite Hh.
  - intros v Hh Hv. apply hp_is_nest_falsy. unfold get. by rewrite Hh.
  - split.
    + intros Hok. destruct (h !! "ORDERING") as [v|] eqn:Hh.
      * destruct (truthy v) eqn:Hv.
        -- destruct v as [|b|z|s];
             [done
             |by rewrite (hp_is_nest_not_str h (VBool b)) in Hok
             |by rewrite (hp_is_nest_not_str h (VInt z)) in Hok
             |].
           exists s. split; [done|]. apply truthy_VStr in Hv.
           rewrite (hp_is_nest_str h s Hh Hv) in Hok.
           destruct (str_in (lower s) nested_names) eqn:Hn.
           ++ by apply str_in_spec.
           ++ by destruct (String.eqb (lower s) "ring").
        -- rewrite hp_is_nest_falsy in Hok; [done|]. unfold get. by rewrite Hh.
      * rewrite hp_is_nest_falsy in Hok; [done|]. unfold get. by rewrite Hh.
    + intros (s & Hh & Hn). apply (Hstr s Hh); [|done].
      intros ->. unfold is_nested_name, nested_names in Hn. simpl in Hn.
      rewrite !elem_of_cons, elem_of_nil in Hn. by destruct Hn as [?|[?|[]]].
Qed.

Lemma hp_is_nest_cases_witness :
  hp_is_nest (∅ : header) = Err NoOrdering /\
  hp_is_nest ({[ "ORDERING" := VInt 0 ]} : header) = Err NoOrdering /\
  hp_is_nest ({[ "ORDERING" := VStr "NESTED" ]} : header) = Ok true /\
  hp_is_nest ({[ "ORDERING" := VStr "Ring" ]} : header) = Ok false /\
  hp_is_nest ({[ "ORDERING" := VStr "spiral" ]} : header) = Err UnknownOrdering.
Proof.
  split; [|split; [|split; [|split]]].
  - apply (hp_is_nest_cases ∅). reflexivity.
  - apply (proj1 (proj2 (hp_is_nest_cases {[ "ORDERING" := VInt 0 ]})) (VInt 0));
      reflexivity.
  - apply (proj2 (proj2 (hp_is_nest_cases {[ "ORDERING" := VStr "NESTED" ]}))).
    exists "NESTED". split; [reflexivity|].
    unfold is_nested_name, nested_names. vm_compute lower. apply list_elem_of_here.
  - refine (proj1 (proj2 (proj1 (proj2 (proj2
      (hp_is_nest_cases {[ "ORDERING" := VStr "Ring" ]}))) "Ring" _ _)) _);
      [reflexivity|discriminate|reflexivity].
  - refine (proj2 (proj2 (proj1 (proj2 (proj2
      (hp_is_nest_cases {[ "ORDERING" := VStr "spiral" ]}))) "spiral" _ _)) _ _).
    + reflexivity.
    + discriminate.
    + unfold is_nested_name, nested_names. vm_compute lower.
      rewrite !elem_of_cons, elem_of_nil. intros [?|[?|[]]]; discriminate.
    + unfold is_ring_name. vm_compute lower. discriminate.
Defined.

(** C8 as stated fails: an empty ORDERING is present and is not a
    recognised value, yet the error raised is the missing-ordering one. *)
Lemma hp_is_nest_empty_ordering_counterexample :
  let h : header := {[ "ORDERING" := VStr "" ]} in
  h !! "ORDERING" = Some (VStr "") /\
  ~ is_nested_name "" /\ ~ is_ring_name "" /\
  hp_is_nest h <> Err UnknownOrdering.
Proof.
  intros h. repeat split.
  - unfold is_nested_name, nested_names. simpl.
    rewrite !elem_of_cons, elem_of_nil. intros [?|[?|[]]]; discriminate.
  - unfold is_ring_name. simpl. discriminate.
  - vm_compute. discriminate.
Qed.

(** ** hpmap_key *)

Lemma no_char_app (c : ascii) (a b : string) :
  no_char c (a +:+ b) <-> no_char c a /\ no_char c b.
Proof. induction a as [|x a IH]; simpl; [tauto|]. rewrite IH. tauto. Qed.

(** A field that does not hold the separator ends at the first separator. *)
Lemma split_first (c : ascii) (a1 a2 r1 r2 : string) :
  no_char c a1 -> no_char c a2 ->
  a1 +:+ String c r1 = a2 +:+ String c r2 -> a1 = a2 /\ r1 = r2.
Proof.
  revert a2. induction a1 as [|x a1 IH]; intros [|y a2]; simpl.
  - intros _ _ [= ->]. done.
  - intros _ [Hy _] [= <- _]. done.
  - intros [Hx _] _ [= -> _]. done.
  - intros [_ H1] [_ H2] [= -> Heq].
    destruct (IH a2 H1 H2 Heq) as [-> ->]. done.
Qed.

(** A field that does not hold the separator starts after the last one. *)
Lemma split_last (c : ascii) (a1 a2 r1 r2 : string) :
  no_char c r1 -> no_char c r2 ->
  a1 +:+ String c r1 = a2 +:+ String c r2 -> a1 = a2 /\ r1 = r2.
Proof.
  intros H1 H2. revert a2. induction a1 as [|x a1 IH]; intros [|y a2]; simpl.
  - intros [= ->]. done.
  - intros [= <- ->]. apply no_char_app in H1 as [_ [[] _]]. done.
  - intros [= -> <-]. apply no_char_app in H2 as [_ [[] _]]. done.
  - intros [= -> Heq]. destruct (IH a2 Heq) as [-> ->]. done.
Qed.

Lemma pretty_N_char_no_underscore (x : N) : pretty_N_char x <> "_"%char.
Proof. unfold pretty_N_char. by repeat case_match. Qed.

Lemma pretty_N_go_no_underscore (x : N) (s : string) :
  no_char "_" s -> no_char "_" (pretty_N_go x s).
Proof.
  revert s. induction (N.lt_wf_0 x) as [x _ IH]; intros s Hs.
  assert (x = 0 \/ 0 < x)%N as [->|Hx] by lia.
  - by rewrite pretty_N_go_0.
  - rewrite pretty_N_go_step by done. apply IH.
    + by apply N.div_lt.
    + split; [apply pretty_N_char_no_underscore|done].
Qed.

Lemma pretty_N_no_underscore (x : N) : no_char "_" (pretty x).
Proof.
  unfold pretty, pretty_N. case_decide.
  - simpl. split; [discriminate|done].
  - by apply pretty_N_go_no_underscore.
Qed.

Lemma pretty_Z_no_underscore (z : Z) : no_char "_" (pretty z).
Proof.
  destruct z as [|p|p]; unfold pretty, pretty_Z.
  - simpl. split; [discriminate|done].
  - apply pretty_N_no_underscore.
  - simpl. split; [discriminate|]. apply pretty_N_no_underscore.
Qed.

Lemma frame_name_no_underscore (f : frame) : no_char "_" (frame_name f).
Proof. destruct f; simpl; repeat split; discriminate. Qed.

Lemma frame_name_inj (f g : frame) : frame_name f = frame_name g -> f = g.
Proof. destruct f, g; simpl; intros [=]; reflexivity. Qed.

(** The key reads back as the three values it prints. *)
Lemma key_inj (n1 n2 : Z) (o1 o2 : string) (f1 f2 : frame) :
  pretty n1 +:+ "_" +:+ o1 +:+ "_" +:+ frame_name f1
  = pretty n2 +:+ "_" +:+ o2 +:+ "_" +:+ frame_name f2 ->
  n1 = n2 /\ o1 = o2 /\ f1 = f2.
Proof.
  intros Heq.
  apply split_first in Heq as [Hn Heq]; try apply pretty_Z_no_underscore.
  apply (inj pretty) in Hn.
  apply split_last in Heq as [Ho Hf]; try apply frame_name_no_underscore.
  apply frame_name_inj in Hf. done.
Qed.

Lemma hpmap_key_eq {F} (m : hp_map F) (nside ordering : value) (f : frame) :
  m.2 !! "NSIDE" = Some nside -> m.2 !! "ORDERING" = Some ordering ->
  hp_celestial m.2 = Ok f ->
  hpmap_key m = Ok (py_str nside +:+ "_" +:+ py_str ordering +:+ "_" +:+ frame_name f).
Proof.
  intros Hn Ho Hf. unfold hpmap_key, getitem. rewrite Hn, Ho. simpl.
  rewrite Hf. reflexivity.
Qed.

(** C3, as the code has it: for headers with an integer NSIDE, a string
    ORDERING and a supported COORDSYS, [hpmap_key] is
    "{NSIDE}_{ORDERING}_{frame name}" with the frame name canonical; two
    maps get the same key exactly when they have the same NSIDE, the same
    ORDERING string as written and the same frame, whatever their
    identifiers and data.  Maps with the same key have the same
    pixelization descriptor. *)
Theorem hpmap_key_exact {F} (m1 m2 : hp_map F) (n1 n2 : Z) (o1 o2 : string)
    (f1 f2 : frame) :
  m1.2 !! "NSIDE" = Some (VInt n1) -> m1.2 !! "ORDERING" = Some (VStr o1) ->
  hp_celestial m1.2 = Ok f1 ->
  m2.2 !! "NSIDE" = Some (VInt n2) -> m2.2 !! "ORDERING" = Some (VStr o2) ->
  hp_celestial m2.2 = Ok f2 ->
  hpmap_key m1 = Ok (pretty n1 +:+ "_" +:+ o1 +:+ "_" +:+ frame_name f1) /\
  (hpmap_key m1 = hpmap_key m2 <-> n1 = n2 /\ o1 = o2 /\ f1 = f2) /\
  (hpmap_key m1 = hpmap_key m2 -> descriptor_of m1.2 = descriptor_of m2.2).
Proof.
  intros Hn1 Ho1 Hf1 Hn2 Ho2 Hf2.
  rewrite (hpmap_key_eq m1 _ _ _ Hn1 Ho1 Hf1), (hpmap_key_eq m2 _ _ _ Hn2 Ho2 Hf2).
  simpl py_str.
  assert (Hiff : Ok (pretty n1 +:+ "_" +:+ o1 +:+ "_" +:+ frame_name f1)
               = Ok (pretty n2 +:+ "_" +:+ o2 +:+ "_" +:+ frame_name f2)
               <-> n1 = n2 /\ o1 = o2 /\ f1 = f2).
  { split.
    - intros [= Heq]. by apply key_inj.
    - intros (-> & -> & ->). done. }
  split; [done|]. split; [done|].
  intros (-> & -> & ->)%Hiff.
  unfold descriptor_of, getitem. rewrite Hn1, Hn2. simpl.
  assert (hp_is_nest m1.2 = hp_is_nest m2.2) as ->.
  { unfold hp_is_nest, get. by rewrite Ho1, Ho2. }
  by rewrite Hf1, Hf2.
Qed.

Lemma hpmap_key_exact_witness :
  let h (n : Z) (c : string) : header :=
    {[ "NSIDE" := VInt n; "ORDERING" := VStr "RING"; "COORDSYS" := VStr c ]} in
  let m1 : hp_map Z := ("a.fits", OnDisk "a.fits", h 64 "G") in
  let m2 : hp_map Z := ("b.fits", InMemory [], h 64 "Galactic") in
  let m3 : hp_map Z := ("c.fits", OnDisk "c.fits", h 32 "G") in
  hpmap_key m1 = Ok "64_RING_galactic" /\
  hpmap_key m1 = hpmap_key m2 /\
  hpmap_key m1 <> hpmap_key m3.
Proof.
  intros h m1 m2 m3.
  destruct (hpmap_key_exact m1 m2 64 64 "RING" "RING" Galactic Galactic)
    as (Hkey & Hsame & _); try reflexivity.
  destruct (hpmap_key_exact m1 m3 64 32 "RING" "RING" Galactic Galactic)
    as (_ & Hdiff & _); try reflexivity.
  split; [exact Hkey|]. split.
  - apply Hsame. done.
  - intros Heq. apply Hdiff in Heq as [Heq _]. discriminate.
Defined.

(** C3 as stated fails: "NESTED" and "NEST" name the same ordering scheme,
    so the two headers have the same pixelization descriptor, but the key
    prints the ORDERING string as written and the two keys differ. *)
Lemma hpmap_key_ordering_synonym_counterexample :
  let h (o : string) : header :=
    {[ "NSIDE" := VInt 64; "ORDERING" := VStr o; "COORDSYS" := VStr "G" ]} in
  let m1 : hp_map Z := ("a.fits", OnDisk "a.fits", h "NESTED") in
  let m2 : hp_map Z := ("b.fits", OnDisk "b.fits", h "NEST") in
  descriptor_of m1.2 = Ok (mk_descriptor 64 NESTED Galactic) /\
  descriptor_of m2.2 = Ok (mk_descriptor 64 NESTED Galactic) /\
  hpmap_key m1 = Ok "64_NESTED_galactic" /\
  hpmap_key m2 = Ok "64_NEST_galactic" /\
  hpmap_key m1 <> hpmap_key m2.
Proof.
  intros h m1 m2.
  assert (hpmap_key m1 = Ok "64_NESTED_galactic") as H1 by reflexivity.
  assert (hpmap_key m2 = Ok "64_NEST_galactic") as H2 by reflexivity.
  split; [reflexivity|]. split; [reflexivity|].
  split; [exact H1|]. split; [exact H2|].
  rewrite H1, H2. discriminate.
Qed.

(** ** rotate_frame *)

Section rotate_frame_properties.
Context `{HP : Healpy} `{AP : !Astropy}.

Lemma rotate_frame_eq (alon alat : list float) (h : header) (wcs : WCS) (f : frame) :
  hp_celestial h = Ok f ->
  rotate_frame alon alat h wcs =
    Ok (if is_equivalent_frame f (wcs_to_celestial_frame wcs) then (alon, alat)
        else rotated (wcs_to_celestial_frame wcs) f alon alat).
Proof.
  intros Hf. unfold rotate_frame. rewrite Hf. simpl.
  by destruct (is_equivalent_frame f (wcs_to_celestial_frame wcs)).
Qed.

Lemma equiv_celestial_str (s : string) :
  equiv_celestial (VStr s) =
    if str_in (lower s) VALID_GALACTIC then Ok Galactic
    else if str_in (lower s) VALID_EQUATORIAL then Ok ICRS
    else Err UnknownFrame.
Proof. reflexivity. Qed.

Lemma hp_celestial_str (h : header) (s : string) :
  h !! "COORDSYS" = Some (VStr s) -> s <> "" ->
  hp_celestial h = equiv_celestial (VStr s).
Proof.
  intros Hh Hs. unfold hp_celestial, get. rewrite Hh. simpl default.
  apply truthy_VStr in Hs. by rewrite Hs.
Qed.

(** C2: when the frame named by the header's COORDSYS, with its synonyms
    brought to one frame, is the frame of the WCS, [rotate_frame] returns the
    longitudes and latitudes it was given; otherwise it returns their
    transform from the frame of the WCS to the frame of the map. *)
Theorem rotate_frame_identity_or_transform
    (alon alat : list float) (h : header) (wcs : WCS) (s : string) :
  h !! "COORDSYS" = Some (VStr s) ->
  (lower s ∈ VALID_GALACTIC -> hp_celestial h = Ok Galactic) /\
  (lower s ∈ VALID_EQUATORIAL -> hp_celestial h = Ok ICRS) /\
  (forall f, hp_celestial h = Ok f ->
     (f = wcs_to_celestial_frame wcs ->
        rotate_frame alon alat h wcs = Ok (alon, alat)) /\
     (f <> wcs_to_celestial_frame wcs ->
        rotate_frame alon alat h wcs
        = Ok (rotated (wcs_to_celestial_frame wcs) f alon alat))).
Proof.
  intros Hh.
  assert (Hne : forall l : list string, lower s ∈ l -> "" ∉ l -> s <> "").
  { intros l Hin Hnot ->. done. }
  split; [|split].
  - intros Hin. rewrite (hp_celestial_str h s Hh).
    + rewrite equiv_celestial_str. apply str_in_spec in Hin. by rewrite Hin.
    + apply (Hne _ Hin). unfold VALID_GALACTIC.
      rewrite !elem_of_cons, elem_of_nil. intros [?|[?|[]]]; discriminate.
  - intros Hin. rewrite (hp_celestial_str h s Hh).
    + rewrite equiv_celestial_str.
      destruct (str_in (lower s) VALID_GALACTIC) eqn:Hg.
      * apply str_in_spec in Hg. exfalso. revert Hin Hg.
        unfold VALID_GALACTIC, VALID_EQUATORIAL.
        rewrite !elem_of_cons, !elem_of_nil.
        intros [->|[->|[->|[->|[->|[->|[]]]]]]] [?|[?|[]]]; discriminate.
      * apply str_in_spec in Hin. by rewrite Hin.
    + apply (Hne _ Hin). unfold VALID_EQUATORIAL.
      rewrite !elem_of_cons, elem_of_nil.
      intros [?|[?|[?|[?|[?|[?|[]]]]]]]; discriminate.
  - intros f Hf. rewrite (rotate_frame_eq alon alat h wcs f Hf).
    unfold is_equivalent_frame. split; intros Hfr.
    + by rewrite bool_decide_eq_true_2.
    + by rewrite bool_decide_eq_false_2.
Qed.

End rotate_frame_properties.

Import Toy.

Lemma rotate_frame_identity_or_transform_witness :
  let h (c : string) : header := {[ "COORDSYS" := VStr c ]} in
  let alon : list float := [Some 10; Some 20] in
  let alat : list float := [Some 1; Some 2] in
  rotate_frame alon alat (h "G") (Galactic, 5) = Ok (alon, alat) /\
  rotate_frame alon alat (h "Galactic") (Galactic, 5) = Ok (alon, alat) /\
  rotate_frame alon alat (h "celestial2000") (ICRS, 5) = Ok (alon, alat) /\
  rotate_frame alon alat (h "EQ") (Galactic, 5) = Ok (alat, alon).
Proof.
  intros h alon alat.
  pose proof (fun c w => rotate_frame_identity_or_transform
                           alon alat (h c) w c eq_refl) as H.
  split; [|split; [|split]].
  - destruct (H "G" (Galactic, 5)) as (Hg & _ & Hr).
    apply (Hr Galactic); [|reflexivity].
    apply Hg. vm_compute lower. apply list_elem_of_further, list_elem_of_here.
  - destruct (H "Galactic" (Galactic, 5)) as (Hg & _ & Hr).
    apply (Hr Galactic); [|reflexivity].
    apply Hg. vm_compute lower. apply list_elem_of_here.
  - destruct (H "celestial2000" (ICRS, 5)) as (_ & He & Hr).
    apply (Hr ICRS); [|reflexivity].
    apply He. vm_compute lower. apply list_elem_of_here.
  - destruct (H "EQ" (Galactic, 5)) as (_ & He & Hr).
    apply (Hr ICRS); [|discriminate].
    apply He. vm_compute lower. do 2 apply list_elem_of_further. apply list_elem_of_here.
Defined.

(** ** Arrays *)

Lemma count_true_cons (m : bool) (mask : list bool) :
  count_true (m :: mask) = ((if m then 1 else 0) + count_true mask)%nat.
Proof.
  unfold count_true. rewrite filter_cons.
  destruct m; case_decide; simpl; congruence.
Qed.

Lemma length_select {A} (mask : list bool) (a : list A) :
  length mask = length a -> length (select mask a) = count_true mask.
Proof.
  revert a. induction mask as [|m mask IH]; intros [|x a]; try done.
  intros [= Hlen]. rewrite count_true_cons. simpl.
  destruct m; simpl; rewrite IH; done.
Qed.

Lemma length_flat_map_const {A B} (f : A -> list B) (l : list A) (n : nat) :
  (forall x, length (f x) = n) -> length (flat_map f l) = (length l * n)%nat.
Proof.
  intros Hf. induction l as [|x l IH]; [done|].
  simpl. rewrite length_app, Hf, IH. done.
Qed.

Lemma length_np_indices (shape : nat * nat) :
  length (np_indices shape).1 = (shape.1 * shape.2)%nat /\
  length (np_indices shape).2 = (shape.1 * shape.2)%nat.
Proof.
  destruct shape as [n_y n_x]. simpl. split.
  - rewrite (length_flat_map_const _ _ n_x).
    + rewrite length_seqZ. lia.
    + intros y. apply length_replicate.
  - rewrite (length_flat_map_const _ _ n_x).
    + rewrite length_seqZ. lia.
    + intros _. rewrite length_seqZ. lia.
Qed.

Lemma Forall_zip_with_all {A B C} (P : C -> Prop) (f : A -> B -> C)
    (l : list A) (k : list B) :
  (forall x y, P (f x y)) -> Forall P (zip_with f l k).
Proof.
  intros Hf. revert k. induction l as [|x l IH]; intros [|y k]; simpl;
    constructor; auto.
Qed.

Lemma zip_with_replicate_r {A B C} (g : A -> B -> C) (xs : list A) (y : B) :
  zip_with g xs (replicate (length xs) y) = (fun x => g x y) <$> xs.
Proof. induction xs as [|x xs IH]; simpl; [done|]. by rewrite IH. Qed.

Lemma zip_with_rows {A B C} (g : A -> B -> C) (xs : list A) (ys : list B) :
  zip_with g (flat_map (fun _ => xs) ys)
             (flat_map (fun y => replicate (length xs) y) ys)
  = flat_map (fun y => (fun x => g x y) <$> xs) ys.
Proof.
  induction ys as [|y ys IH]; simpl; [done|].
  rewrite zip_with_app by (by rewrite length_replicate).
  by rewrite zip_with_replicate_r, IH.
Qed.

Lemma lookup_flat_map_rows {A B} (F : A -> list B) (ys : list A) (n i j : nat) :
  (forall y, length (F y) = n) -> (j < n)%nat ->
  flat_map F ys !! (i * n + j)%nat = ys !! i ≫= fun y => F y !! j.
Proof.
  intros HF Hj. revert i. induction ys as [|y ys IH]; intros i; simpl.
  - done.
  - destruct i as [|i]; simpl.
    + rewrite lookup_app_l by (rewrite HF; lia). done.
    + rewrite lookup_app_r by (rewrite HF; lia).
      rewrite HF. replace (n + i * n + j - n)%nat with (i * n + j)%nat by lia.
      apply IH.
Qed.

Lemma elem_of_setxor1d (a b : list Z) (p : Z) :
  p ∈ setxor1d a b <-> (p ∈ a /\ p ∉ b) \/ (p ∈ b /\ p ∉ a).
Proof.
  unfold setxor1d. rewrite merge_sort_Permutation, elem_of_remove_dups.
  rewrite elem_of_app, !list_elem_of_difference. done.
Qed.

Lemma np_index_in_range {A} (a : list A) (i : Z) :
  0 <= i < Z.of_nat (length a) ->
  exists x, a !! Z.to_nat i = Some x /\ np_index a i = Ok x.
Proof.
  intros Hi. unfold np_index.
  destruct (lookup_lt_is_Some_2 a (Z.to_nat i)) as [x Hx]; [lia|].
  exists x. split; [done|].
  assert ((i <? 0) = false) as -> by (apply Z.ltb_ge; lia).
  assert ((0 <=? i) = true) as -> by (apply Z.leb_le; lia).
  assert ((i <? Z.of_nat (length a)) = true) as -> by (apply Z.ltb_lt; lia).
  simpl. by rewrite Hx.
Qed.

Lemma np_take_in_range {A} (a : list A) (ipix : list Z) :
  Forall (fun p => 0 <= p < Z.of_nat (length a)) ipix ->
  exists vals, np_take a ipix = Ok vals /\
    Forall2 (fun p x => a !! Z.to_nat p = Some x) ipix vals.
Proof.
  intros Hall. induction Hall as [|p ipix Hp _ (vals & Hvals & Hall)].
  - exists []. split; [done|constructor].
  - destruct (np_index_in_range a p Hp) as (x & Hx & Hix).
    exists (x :: vals). split.
    + unfold np_take in *. simpl. rewrite Hix. simpl. rewrite Hvals. done.
    + by constructor.
Qed.

(** Gathering from a uniform map gives its value back, once per index. *)
Lemma np_take_replicate {A} (n : nat) (v : A) (ipix : list Z) :
  Forall (fun p => 0 <= p < Z.of_nat n) ipix ->
  np_take (replicate n v) ipix = Ok (replicate (length ipix) v).
Proof.
  intros Hall. apply mapM_Ok.
  induction Hall as [|p ipix Hp _ IH]; simpl; constructor; [|done].
  destruct (np_index_in_range (replicate n v) p) as (x & Hx & ->).
  { by rewrite length_replicate. }
  apply lookup_replicate in Hx as [-> _]. done.
Qed.

(** What is left of a masked array of zeros once a uniform value has been
    written where [mask] holds and the rest has been filled. *)
Lemma filled_put_replicate {A} (mask : list bool) (a : list A) (v fill : A) :
  length a = length mask ->
  zip_with (fun x hidden => if hidden : bool then fill else x)
    (put mask (replicate (count_true mask) v) a)
    (zip_with (fun old sel => if sel : bool then false else old)
       (negb <$> mask) mask)
  = (fun m => if m : bool then v else fill) <$> mask.
Proof.
  revert a. induction mask as [|m mask IH]; intros [|x a]; try done.
  intros [= Hlen]. rewrite count_true_cons.
  destruct m; simpl; rewrite IH; done.
Qed.

Lemma npix2nside_square (nside : Z) :
  0 <= nside -> npix2nside (12 * nside ^ 2) = Ok nside.
Proof.
  intros Hn. unfold npix2nside.
  replace (12 * nside ^ 2) with (nside * nside * 12) by lia.
  rewrite Z.div_mul by done. rewrite Z.sqrt_square by done.
  assert ((12 * nside * nside =? nside * nside * 12) = true) as ->; [|done].
  apply Z.eqb_eq. lia.
Qed.

(** ** hp_to_wcs_ipx, hp_to_wcs *)

Section projection_properties.
Context `{HP : Healpy} `{AP : !Astropy}.

Lemma length_pixel_centres (wcs : WCS) (shape_out : nat * nat) :
  length (pixel_centres wcs shape_out) = (shape_out.1 * shape_out.2)%nat.
Proof.
  unfold pixel_centres.
  destruct (length_np_indices shape_out) as [Hy Hx].
  destruct (np_indices shape_out) as [y_tab x_tab]. simpl in *.
  rewrite length_zip_with, Hx, Hy. lia.
Qed.

Lemma rotate_frame_length (alon alat alon' alat' : list float) (h : header)
    (wcs : WCS) :
  rotate_frame alon alat h wcs = Ok (alon', alat') ->
  length alon = length alat ->
  length alon' = length alon /\ length alat' = length alon.
Proof.
  unfold rotate_frame. destruct (hp_celestial h) as [f|e]; simpl; [|done].
  destruct (is_equivalent_frame f (wcs_to_celestial_frame wcs)); simpl.
  - intros [= <- <-] Hlen. done.
  - intros [= <- <-] Hlen. rewrite !length_fmap, length_zip_with. lia.
Qed.

(** The indices of the pixels picked by the mask, one per entry that
    holds, each a pixel of the sphere. *)
Lemma ipix_invariant (nside : Z) (nest : bool) (mask : list bool)
    (theta phi : list float) :
  ang2pix_in_range -> 0 < nside ->
  length theta = length mask -> length phi = length mask ->
  let ipix := zip_with (ang2pix nside nest) (select mask theta) (select mask phi) in
  length ipix = count_true mask /\
  Forall (fun p => 0 <= p < 12 * nside ^ 2) ipix.
Proof.
  intros Hrange Hpos Hth Hph ipix. split.
  - unfold ipix. rewrite length_zip_with, !length_select by done. lia.
  - apply Forall_zip_with_all. intros th ph. by apply Hrange.
Qed.

(** C1: for a header with a valid NSIDE, ORDERING and COORDSYS,
    [hp_to_wcs_ipx] returns a mask of the shape asked for and an index
    array with one entry per True entry of the mask, each entry in
    [0, 12 NSIDE^2). *)
Theorem hp_to_wcs_ipx_invariant (h : header) (wcs : WCS) (shape_out : nat * nat)
    (nside : Z) (nest : bool) (f : frame) :
  ang2pix_in_range ->
  h !! "NSIDE" = Some (VInt nside) -> 0 < nside ->
  hp_is_nest h = Ok nest -> hp_celestial h = Ok f ->
  exists (mask : ndarray bool) (ipix : list Z),
    hp_to_wcs_ipx h wcs shape_out = Ok (mask, ipix) /\
    shape mask = shape_out /\
    length (flat mask) = (shape_out.1 * shape_out.2)%nat /\
    length ipix = count_true (flat mask) /\
    Forall (fun p => 0 <= p < 12 * nside ^ 2) ipix.
Proof.
  intros Hrange Hn Hpos Hnest Hf.
  unfold hp_to_wcs_ipx, getitem. rewrite Hn. simpl.
  pose proof (length_pixel_centres wcs shape_out) as Hlen.
  set (centres := pixel_centres wcs shape_out) in *.
  destruct (rotate_frame centres.*1 centres.*2 h wcs) as [[alon alat]|e] eqn:Hrot.
  - apply rotate_frame_length in Hrot as [Hlon Hlat];
      [|by rewrite !length_fmap].
    rewrite length_fmap in Hlon, Hlat.
    simpl. rewrite Hnest. simpl.
    eexists _, _. split; [reflexivity|]. simpl.
    split; [done|]. split; [by rewrite length_fmap|].
    apply ipix_invariant; try done; rewrite !length_fmap; done.
  - rewrite (rotate_frame_eq _ _ h wcs f Hf) in Hrot. done.
Qed.

(** The entry (y, x) of the grid of pixel centres, at y n_x + x of the flat
    array, is the sky position of the pixel (x, y). *)
Lemma pixel_centres_lookup (wcs : WCS) (n_y n_x y x : nat) :
  (y < n_y)%nat -> (x < n_x)%nat ->
  pixel_centres wcs (n_y, n_x) !! (y * n_x + x)%nat
  = Some (wcs_pix2world wcs (Z.of_nat x) (Z.of_nat y)).
Proof.
  intros Hy Hx. unfold pixel_centres, np_indices.
  assert (length (seqZ 0 (Z.of_nat n_x)) = n_x) as Hlen.
  { rewrite length_seqZ. lia. }
  pose proof (zip_with_rows (wcs_pix2world wcs) (seqZ 0 (Z.of_nat n_x))
                (seqZ 0 (Z.of_nat n_y))) as Hrows.
  rewrite Hlen in Hrows. rewrite Hrows.
  rewrite (lookup_flat_map_rows _ _ n_x).
  - rewrite lookup_seqZ_lt by lia. simpl.
    rewrite list_lookup_fmap, lookup_seqZ_lt by lia. simpl.
    by rewrite !Z.add_0_l.
  - intros y'. by rewrite length_fmap.
  - done.
Qed.

(** C5: nearest-neighbour projection of a map that holds [v] at every
    pixel gives an array of the shape asked for, with [v] at every pixel
    whose sky position is defined and not-a-number at the others. *)
Theorem hp_to_wcs_uniform (hp_hdu : ImageHDU) (wcs : WCS) (shape_out : nat * nat)
    (nside : Z) (nest : bool) (f : frame) (v : float) :
  ang2pix_in_range ->
  0 < nside -> hdu_data hp_hdu = replicate (Z.to_nat (12 * nside ^ 2)) v ->
  hp_is_nest (hdu_header hp_hdu) = Ok nest ->
  hp_celestial (hdu_header hp_hdu) = Ok f ->
  exists proj_map : ndarray float,
    hp_to_wcs hp_hdu wcs shape_out 0 = Ok proj_map /\
    shape proj_map = shape_out /\
    length (flat proj_map) = (shape_out.1 * shape_out.2)%nat /\
    flat proj_map
    = (fun c => if inside c then v else nan) <$> pixel_centres wcs shape_out /\
    forall y x : nat, (y < shape_out.1)%nat -> (x < shape_out.2)%nat ->
      flat proj_map !! (y * shape_out.2 + x)%nat
      = Some (if inside (wcs_pix2world wcs (Z.of_nat x) (Z.of_nat y))
              then v else nan).
Proof.
  intros Hrange Hpos Hdata Hnest Hf.
  pose proof (length_pixel_centres wcs shape_out) as Hlen.
  assert (Hflat : hp_to_wcs hp_hdu wcs shape_out 0
    = Ok (mk_ndarray shape_out
            ((fun c => if inside c then v else nan) <$> pixel_centres wcs shape_out))).
  { unfold hp_to_wcs.
    set (centres := pixel_centres wcs shape_out) in *.
    destruct (rotate_frame centres.*1 centres.*2 (hdu_header hp_hdu) wcs)
      as [[alon alat]|e] eqn:Hrot;
      [|by rewrite (rotate_frame_eq _ _ _ wcs f Hf) in Hrot].
    apply rotate_frame_length in Hrot as [Hlon Hlat];
      [|by rewrite !length_fmap].
    rewrite length_fmap in Hlon, Hlat.
    simpl. rewrite Hdata, length_replicate, Z2Nat.id by lia.
    rewrite npix2nside_square by lia. simpl. rewrite Hnest. simpl.
    set (mask := inside <$> centres).
    set (theta := (fun lat => radians (ninety_minus lat)) <$> alat).
    set (phi := radians <$> alon).
    destruct (ipix_invariant nside nest mask theta phi) as [Hcount Hall];
      try done; try (unfold mask, theta, phi; rewrite !length_fmap; done).
    rewrite np_take_replicate.
    2:{ eapply Forall_impl; [exact Hall|]. simpl. intros p Hp. lia. }
    simpl. unfold ma_setmask, np_setmask. simpl.
    rewrite length_replicate, Hcount.
    rewrite bool_decide_eq_true_2 by done. simpl.
    unfold ma_filled. simpl. rewrite filled_put_replicate.
    - unfold mask. rewrite <- list_fmap_compose. done.
    - unfold mask. rewrite length_replicate, length_fmap. done. }
  eexists. split; [exact Hflat|]. simpl.
  split; [done|]. split; [by rewrite length_fmap|]. split; [done|].
  intros y x Hy Hx. destruct shape_out as [n_y n_x]. simpl in *.
  by rewrite list_lookup_fmap, pixel_centres_lookup.
Qed.

Lemma hp_celestial_never_unsupported (h : header) :
  hp_celestial h <> Err UnsupportedOrder.
Proof.
  unfold hp_celestial. destruct (truthy _); [|done].
  destruct (get h "COORDSYS") as [| | |s]; try done.
  rewrite equiv_celestial_str. by repeat case_match.
Qed.

Lemma hp_is_nest_never_unsupported (h : header) :
  hp_is_nest h <> Err UnsupportedOrder.
Proof.
  unfold hp_is_nest. destruct (negb _); [done|].
  destruct (get h "ORDERING"); simpl; try done. by repeat case_match.
Qed.

Lemma rotate_frame_never_unsupported (alon alat : list float) (h : header)
    (wcs : WCS) :
  rotate_frame alon alat h wcs <> Err UnsupportedOrder.
Proof.
  unfold rotate_frame. intros [Hc|(f & _ & Hk)]%bind_Err.
  - by apply hp_celestial_never_unsupported in Hc.
  - by destruct (negb _).
Qed.

Lemma np_take_never_unsupported {A} (a : list A) (ipix : list Z) :
  np_take a ipix <> Err UnsupportedOrder.
Proof.
  intros (i & _ & Hi)%mapM_Err. unfold np_index in Hi.
  by repeat case_match.
Qed.

Lemma ma_setmask_never_unsupported {A} (m : masked A) (mask : list bool)
    (vals : list A) :
  ma_setmask m mask vals <> Err UnsupportedOrder.
Proof.
  unfold ma_setmask. intros [Hs|(d & _ & [=])]%bind_Err.
  unfold np_setmask in Hs. by repeat case_match.
Qed.

(** C9: on a map whose header names a supported frame, [hp_to_wcs] raises
    the unsupported-order error for every order other than 0 and 1; for
    the orders 0 and 1 it never raises that error. *)
Theorem hp_to_wcs_order (hp_hdu : ImageHDU) (wcs : WCS) (shape_out : nat * nat)
    (order : Z) :
  (forall f, hp_celestial (hdu_header hp_hdu) = Ok f ->
     order <> 0 -> order <> 1 ->
     hp_to_wcs hp_hdu wcs shape_out order = Err UnsupportedOrder) /\
  (order = 0 \/ order = 1 ->
     hp_to_wcs hp_hdu wcs shape_out order <> Err UnsupportedOrder).
Proof.
  split.
  - intros f Hf H0 H1. unfold hp_to_wcs.
    rewrite (rotate_frame_eq _ _ _ wcs f Hf). simpl.
    apply Z.eqb_neq in H0, H1. rewrite H0, H1.
    by destruct (is_equivalent_frame _ _).
  - intros Horder. unfold hp_to_wcs.
    intros [Hr|([alon alat] & _ & [Hp|(p & _ & [=])]%bind_Err)]%bind_Err.
    + by apply rotate_frame_never_unsupported in Hr.
    + destruct Horder as [-> | ->]; simpl in Hp.
      * apply bind_Err in Hp as [Hn|(n & _ & Hp)].
        { unfold npix2nside in Hn. by case_match. }
        apply bind_Err in Hp as [Hn|(nest & _ & Hp)].
        { by apply hp_is_nest_never_unsupported in Hn. }
        apply bind_Err in Hp as [Hn|(vals & _ & Hp)].
        { by apply np_take_never_unsupported in Hn. }
        by apply ma_setmask_never_unsupported in Hp.
      * apply bind_Err in Hp as [Hn|(nest & _ & Hp)].
        { by apply hp_is_nest_never_unsupported in Hn. }
        by apply ma_setmask_never_unsupported in Hp.
Qed.

End projection_properties.

Lemma toy_ang2pix_in_range : ang2pix_in_range.
Proof.
  intros nside nest theta phi Hpos. simpl.
  replace (12 * nside ^ 2) with (12 * nside * nside) by lia.
  apply Z.mod_pos_bound. lia.
Qed.

Lemma hp_to_wcs_ipx_invariant_witness :
  let h : header :=
    {[ "NSIDE" := VInt 2; "ORDERING" := VStr "RING"; "COORDSYS" := VStr "C" ]} in
  exists (mask : ndarray bool) (ipix : list Z),
    hp_to_wcs_ipx h (grid Galactic 2) (2, 3)%nat = Ok (mask, ipix) /\
    shape mask = (2, 3)%nat /\
    length (flat mask) = 6%nat /\
    length ipix = count_true (flat mask) /\
    Forall (fun p => 0 <= p < 12 * 2 ^ 2) ipix.
Proof.
  intros h.
  apply (hp_to_wcs_ipx_invariant h (grid Galactic 2) (2, 3)%nat 2 false ICRS).
  - intros nside nest theta phi Hpos. simpl.
    replace (12 * nside ^ 2) with (12 * nside * nside) by lia.
    apply Z.mod_pos_bound. lia.
  - reflexivity.
  - lia.
  - reflexivity.
  - reflexivity.
Defined.

Lemma hp_to_wcs_uniform_witness :
  exists proj_map : ndarray float,
    hp_to_wcs (uniform_map 7) (grid ICRS 2) (2, 3)%nat 0 = Ok proj_map /\
    shape proj_map = (2, 3)%nat /\
    flat proj_map = [Some 7; Some 7; None; Some 7; Some 7; None].
Proof.
  destruct (hp_to_wcs_uniform (uniform_map 7) (grid ICRS 2) (2, 3)%nat
              1 false Galactic (Some 7))
    as (proj_map & Hok & Hshape & _ & Hflat & _).
  - exact toy_ang2pix_in_range.
  - lia.
  - reflexivity.
  - reflexivity.
  - reflexivity.
  - exists proj_map. split; [exact Hok|]. split; [exact Hshape|].
    rewrite Hflat. reflexivity.
Defined.

Lemma hp_to_wcs_order_witness :
  hp_to_wcs (uniform_map 7) (grid ICRS 2) (2, 3)%nat 2 = Err UnsupportedOrder /\
  hp_to_wcs (uniform_map 7) (grid ICRS 2) (2, 3)%nat 0 <> Err UnsupportedOrder /\
  hp_to_wcs (uniform_map 7) (grid ICRS 2) (2, 3)%nat 1 <> Err UnsupportedOrder.
Proof.
  split; [|split].
  - apply (proj1 (hp_to_wcs_order (uniform_map 7) (grid ICRS 2) (2, 3)%nat 2)
             Galactic); [reflexivity|lia|lia].
  - apply (proj2 (hp_to_wcs_order (uniform_map 7) (grid ICRS 2) (2, 3)%nat 0)).
    left. reflexivity.
  - apply (proj2 (hp_to_wcs_order (uniform_map 7) (grid ICRS 2) (2, 3)%nat 1)).
    right. reflexivity.
Defined.

(** ** hp_to_profile *)

Section profile_properties.
Context `{HP : Healpy} `{AP : !Astropy} `{WH : !WcsHelper}.

(** C4: [hp_to_profile] returns shape_out values; the value of the bin
    between two successive bin edges is the mean of the map over the pixels
    found in exactly one of the two discs queried at these edges, the
    symmetric difference of the two discs, and it is not-a-number when
    there is no such pixel. *)
Theorem hp_to_profile_annuli (hp_hdu : ImageHDU) (wcs : WCS1D) (coord : SkyCoord)
    (shape_out : nat) (coordsys : value) (lon lat : float) (nside : Z)
    (nest : bool) :
  isnan (np_mean []) = true ->
  hdu_header hp_hdu !! "COORDSYS" = Some coordsys ->
  get_lonlat coord coordsys = Ok (lon, lat) ->
  hdu_header hp_hdu !! "NSIDE" = Some (VInt nside) ->
  hp_is_nest (hdu_header hp_hdu) = Ok nest ->
  (forall k p, (k <= shape_out)%nat -> p ∈ disc nside nest lon lat wcs k ->
     0 <= p < Z.of_nat (length (hdu_data hp_hdu))) ->
  exists profile : list float,
    hp_to_profile hp_hdu wcs coord shape_out false = Ok (profile, None) /\
    length profile = shape_out /\
    forall i, (i < shape_out)%nat ->
      let inner := disc nside nest lon lat wcs i in
      let outer := disc nside nest lon lat wcs (S i) in
      let annulus := setxor1d inner outer in
      (forall p, p ∈ annulus <->
         (p ∈ inner /\ p ∉ outer) \/ (p ∈ outer /\ p ∉ inner)) /\
      (exists vals,
         Forall2 (fun p x => hdu_data hp_hdu !! Z.to_nat p = Some x) annulus vals /\
         profile !! i = Some (np_mean vals)) /\
      (annulus = [] -> exists x, profile !! i = Some x /\ isnan x = true).
Proof.
  intros Hnan Hc Hll Hn Hnest Hvalid.
  unfold hp_to_profile, getitem. rewrite Hc. simpl. rewrite Hll. simpl.
  rewrite Hn. simpl. rewrite Hnest. simpl.
  set (i_pix := (fun radius => query_disc nside (dir2vec lon lat) (radians radius) nest)
                  <$> r_edges wcs shape_out).
  set (a_pix := zip_with setxor1d (take (length i_pix - 1) i_pix) (drop 1 i_pix)).
  assert (Hlen : length i_pix = S shape_out).
  { unfold i_pix, r_edges. rewrite !length_fmap, length_seqZ. lia. }
  assert (Hi : forall k, (k <= shape_out)%nat ->
            i_pix !! k = Some (disc nside nest lon lat wcs k)).
  { intros k Hk. unfold i_pix, r_edges.
    rewrite !list_lookup_fmap, lookup_seqZ_lt by lia. simpl.
    by rewrite Z.add_0_l. }
  assert (Ha : forall i, (i < shape_out)%nat ->
            a_pix !! i = Some (setxor1d (disc nside nest lon lat wcs i)
                                        (disc nside nest lon lat wcs (S i)))).
  { intros i Hlt. unfold a_pix.
    rewrite lookup_zip_with, lookup_take_lt, lookup_drop by lia.
    rewrite !Hi by lia. done. }
  assert (Halen : length a_pix = shape_out).
  { unfold a_pix. rewrite length_zip_with, length_take, length_drop. lia. }
  assert (Hrange : forall i, (i < shape_out)%nat ->
            Forall (fun p => 0 <= p < Z.of_nat (length (hdu_data hp_hdu)))
              (setxor1d (disc nside nest lon lat wcs i)
                        (disc nside nest lon lat wcs (S i)))).
  { intros i Hlt. apply Forall_forall. intros p Hp.
    apply elem_of_setxor1d in Hp as [[Hp _]|[Hp _]];
      eapply Hvalid; try exact Hp; lia. }
  destruct (mapM_total
              (fun pix => np_mean <$> np_take (hdu_data hp_hdu) pix) a_pix)
    as [profile Hprofile].
  { intros pix Hpix. apply list_elem_of_lookup in Hpix as [i Hpix].
    assert (i < shape_out)%nat as Hlt.
    { rewrite <- Halen. by eapply lookup_lt_Some. }
    rewrite Ha in Hpix by done. injection Hpix as <-.
    destruct (np_take_in_range (hdu_data hp_hdu) _ (Hrange i Hlt))
      as (vals & -> & _).
    by eexists. }
  rewrite Hprofile. simpl. exists profile. split; [done|].
  apply mapM_Ok in Hprofile.
  split; [by rewrite <- (Forall2_length _ _ _ Hprofile)|].
  intros i Hlt.
  set (inner := disc nside nest lon lat wcs i).
  set (outer := disc nside nest lon lat wcs (S i)).
  set (annulus := setxor1d inner outer).
  destruct (Forall2_lookup_l _ _ _ i _ Hprofile (Ha i Hlt)) as (x & Hx & Hmean).
  fold inner outer annulus in Hmean.
  destruct (np_take_in_range (hdu_data hp_hdu) annulus (Hrange i Hlt))
    as (vals & Hvals & Hgather).
  rewrite Hvals in Hmean. simpl in Hmean. injection Hmean as <-.
  split; [intros p; apply elem_of_setxor1d|]. split.
  - exists vals. done.
  - intros Hempty. exists (np_mean vals). split; [done|].
    rewrite Hempty in Hgather. inversion Hgather. done.
Qed.

End profile_properties.

Lemma hp_to_profile_annuli_witness :
  exists profile : list float,
    hp_to_profile (uniform_map 7) radius_grid origin 14 false = Ok (profile, None) /\
    length profile = 14%nat /\
    profile !! 3%nat = Some (Some 7) /\
    exists x, profile !! 12%nat = Some x /\ isnan x = true.
Proof.
  destruct (hp_to_profile_annuli (uniform_map 7) radius_grid origin 14 (VStr "G")
              (Some 0) (Some 0) 1 false)
    as (profile & Hok & Hlen & Hbins); try reflexivity.
  - intros k p Hk Hp. unfold disc in Hp. simpl in Hp.
    apply elem_of_seqZ in Hp. simpl. lia.
  - exists profile. split; [exact Hok|]. split; [exact Hlen|]. split.
    + destruct (Hbins 3%nat) as (_ & (vals & Hvals & Hmean) & _); [lia|].

      match type of Hvals with
      | Forall2 _ ?annulus _ => change annulus with [3] in Hvals
      end.
      inversion Hvals as [|? x ? vals' Hx Hnil]; subst.
      inversion Hnil; subst.
      vm_compute in Hx. injection Hx as <-. exact Hmean.
    + destruct (Hbins 12%nat) as (_ & _ & Hnan); [lia|].
      apply Hnan. reflexivity.
Defined.

(** ** cutsky.py *)

Section cutsky_properties.
Context `{HP : Healpy} `{AP : !Astropy} `{WH : !WcsHelper} `{CO : !Collaborators}.

(** C7, as the code has it: the no-input error is raised, before anything
    else is done, when the collection of maps is absent ([None]), by
    [CutSky] and by [cutsky] once it has a position.  An empty list or
    dictionary of maps is not rejected: the instance is built, with no
    group of maps. *)
Theorem CutSky_init_no_input (npix : nat) (pixsize : float) (ctype : string)
    (low_mem : bool) :
  CutSky_init None npix pixsize ctype low_mem = Err NoHealpixMap /\
  (forall lonlat patch coordframe,
     cutsky (Some lonlat) None patch coordframe ctype = Err NoHealpixMap) /\
  CutSky_init (Some (MapList [])) npix pixsize ctype low_mem
  = Ok (mk_CutSky npix pixsize ctype [] None None None DEFAULT_coordframe) /\
  CutSky_init (Some (MapDict ∅)) npix pixsize ctype low_mem
  = Ok (mk_CutSky npix pixsize ctype [] None None None DEFAULT_coordframe).
Proof.
  split; [done|]. split; [done|]. split; [done|].
  unfold CutSky_init, to_new_maps. by rewrite map_to_list_empty.
Qed.

(** On a miss, [cut_png] and [cut_phot] cut every map: the selection they
    were given does not reach [cut_fits]. *)
Lemma cut_or_reuse_miss (self : CutSky) (lonlat : float * float)
    (coordframe : string) (maps_selection : option (list value)) :
  same_cut self lonlat coordframe maps_selection = false ->
  cut_or_reuse self lonlat coordframe maps_selection
  = cut_fits self lonlat coordframe None.
Proof. intros Hmiss. unfold cut_or_reuse. by rewrite Hmiss. Qed.

(** On a hit, they hand back the cuts kept from the last call. *)
Lemma cut_or_reuse_hit (self : CutSky) (lonlat : float * float)
    (coordframe : string) (maps_selection : option (list value)) :
  same_cut self lonlat coordframe maps_selection = true ->
  exists cuts, self_cuts self = Some cuts /\
    cut_or_reuse self lonlat coordframe maps_selection = Ok (self, cuts).
Proof.
  intros Hhit. unfold cut_or_reuse. rewrite Hhit.
  unfold same_cut in Hhit. apply andb_true_iff in Hhit as [_ Hcuts].
  destruct (self_cuts self) as [cuts|]; [|done]. by exists cuts.
Qed.

End cutsky_properties.

(** C7 as stated fails: an empty list of maps does not make the
    initialisation fail, and [cutsky] then stops on the first cut it looks
    for, not on the no-input error. *)
Lemma CutSky_init_empty_counterexample :
  CutSky_init (Some (MapList [])) 2 (Some 1) "TAN" true
  = Ok (mk_CutSky 2 (Some 1) "TAN" [] None None None "galactic") /\
  CutSky_init (Some (MapList [])) 2 (Some 1) "TAN" true <> Err NoHealpixMap /\
  cutsky (Some centre) (Some (MapList [])) (2%nat, Some 1) "galactic" "TAN"
  = Err IndexError.
Proof. split; [reflexivity|]. split; [discriminate|reflexivity]. Qed.

(** C6 fails on the code: [cut_png] and [cut_phot], asked for the map "a"
    only, cut the maps "a" and "b", where [cut_fits] cuts "a" alone; and
    the instance then remembers no selection, so that the same request,
    made again, is not served from the cuts it kept. *)
Lemma cut_png_ignores_selection :
  let selection := Some [VStr "a"] in
  (self ← fresh; legends_of (cut_fits self centre "galactic" selection))
  = Ok [VStr "a"] /\
  (self ← fresh; legends_of (cut_png self centre "galactic" selection))
  = Ok [VStr "a"; VStr "b"] /\
  (self ← fresh; legends_of (cut_phot self centre "galactic" selection))
  = Ok [VStr "a"; VStr "b"] /\
  (self ← fresh;
   out ← cut_png self centre "galactic" selection;
   Ok (self_maps_selection out.1, same_cut out.1 centre "galactic" selection))
  = Ok (None, false).
Proof.
  intros selection.
  split; [vm_compute; reflexivity|].
  split; [vm_compute; reflexivity|].
  split; vm_compute; reflexivity.
Qed.

(** * Further properties *)

(** ** hp_is_nest, once more *)

Lemma lower_empty (s : string) : lower s = "" <-> s = "".
Proof. destruct s; simpl; split; intros Hs; done. Qed.

(** X1: [hp_is_nest] reads ORDERING without regard to case: two headers
    whose ORDERING strings have the same lower-case form get the same
    answer, or the same error. *)
Theorem hp_is_nest_case_insensitive (h1 h2 : header) (s1 s2 : string) :
  h1 !! "ORDERING" = Some (VStr s1) -> h2 !! "ORDERING" = Some (VStr s2) ->
  lower s1 = lower s2 ->
  hp_is_nest h1 = hp_is_nest h2.
Proof.
  intros H1 H2 Hlow. destruct (decide (s1 = "")) as [->|Hne].
  - symmetry in Hlow. simpl in Hlow.
    apply (proj1 (lower_empty s2)) in Hlow as ->.
    rewrite !hp_is_nest_falsy; [done| |]; unfold get; by rewrite ?H1, ?H2.
  - assert (s2 <> "") as Hne2.
    { intros ->. simpl in Hlow. by apply (proj1 (lower_empty s1)) in Hlow. }
    rewrite (hp_is_nest_str h1 s1 H1 Hne), (hp_is_nest_str h2 s2 H2 Hne2).
    by rewrite Hlow.
Qed.

Lemma hp_is_nest_case_insensitive_witness :
  hp_is_nest ({[ "ORDERING" := VStr "NeSTed" ]} : header)
  = hp_is_nest ({[ "ORDERING" := VStr "nested" ]} : header).
Proof.
  apply (hp_is_nest_case_insensitive _ _ "NeSTed" "nested"); reflexivity.
Defined.

(** ** hp_to_wcs, once more *)

Lemma length_put {A} (mask : list bool) (vals a : list A) :
  length (put mask vals a) = length a.
Proof.
  revert vals a. induction mask as [|m mask IH]; intros vals [|x a];
    try done; destruct m; try done; [destruct vals|]; simpl; by rewrite IH.
Qed.

Lemma np_setmask_length {A} (a a' : list A) (mask : list bool) (vals : list A) :
  np_setmask a mask vals = Ok a' -> length a' = length a.
Proof.
  unfold np_setmask. case_bool_decide.
  - intros [= <-]. apply length_put.
  - destruct vals as [|v [|??]]; try done. intros [= <-]. apply length_put.
Qed.

Lemma ma_setmask_filled_length {A} (m m' : masked A) (mask : list bool)
    (vals : list A) (n : nat) :
  ma_setmask m mask vals = Ok m' ->
  length (ma_data m) = n -> length (ma_mask m) = n -> length mask = n ->
  length (ma_filled m') = n.
Proof.
  unfold ma_setmask. intros (d & Hd & [= <-])%bind_Ok Hdata Hmask Hsel.
  apply np_setmask_length in Hd. unfold ma_filled. simpl.
  rewrite !length_zip_with. lia.
Qed.

Section projection_shape.
Context `{HP : Healpy} `{AP : !Astropy}.

Lemma hp_to_wcs_shape_core (hp_hdu : ImageHDU) (wcs : WCS) (shape_out : nat * nat)
    (order : Z) (proj_map : ndarray float) :
  hp_to_wcs hp_hdu wcs shape_out order = Ok proj_map ->
  shape proj_map = shape_out /\
  length (flat proj_map) = (shape_out.1 * shape_out.2)%nat.
Proof.
  unfold hp_to_wcs.
  intros ([alon alat] & _ & (m & Hm & [= <-])%bind_Ok)%bind_Ok.
  split; [done|]. simpl.
  pose proof (length_pixel_centres wcs shape_out) as Hlen.
  assert (Hset : forall vals,
    ma_setmask
      (mk_masked (replicate (shape_out.1 * shape_out.2) zero)
         (negb <$> (inside <$> pixel_centres wcs shape_out)) nan)
      (inside <$> pixel_centres wcs shape_out) vals = Ok m ->
    length (ma_filled m) = (shape_out.1 * shape_out.2)%nat).
  { intros vals Hset. eapply ma_setmask_filled_length; [exact Hset|..]; simpl.
    - apply length_replicate.
    - by rewrite !length_fmap.
    - by rewrite length_fmap. }
  destruct (order =? 0).
  - apply bind_Ok in Hm as (nside & _ & Hm).
    apply bind_Ok in Hm as (nest & _ & Hm).
    apply bind_Ok in Hm as (vals & _ & Hm). by eapply Hset.
  - destruct (order =? 1); [|done].
    apply bind_Ok in Hm as (nest & _ & Hm). by eapply Hset.
Qed.

(** X2: whatever the map, the grid and the order, an array returned by
    [hp_to_wcs] has the shape asked for, with one entry per pixel. *)
Theorem hp_to_wcs_shape (hp_hdu : ImageHDU) (wcs : WCS) (shape_out : nat * nat)
    (order : Z) (proj_map : ndarray float) :
  hp_to_wcs hp_hdu wcs shape_out order = Ok proj_map ->
  shape proj_map = shape_out /\
  length (flat proj_map) = (shape_out.1 * shape_out.2)%nat.
Proof. exact (hp_to_wcs_shape_core hp_hdu wcs shape_out order proj_map). Qed.

End projection_shape.

Lemma hp_to_wcs_shape_witness :
  exists proj_map : ndarray float,
    hp_to_wcs (uniform_map 7) (grid Galactic 1) (3, 2)%nat 1 = Ok proj_map /\
    shape proj_map = (3, 2)%nat /\ length (flat proj_map) = 6%nat.
Proof.
  eexists. split; [reflexivity|].
  eapply (hp_to_wcs_shape (uniform_map 7) (grid Galactic 1) (3, 2)%nat 1).
  reflexivity.
Defined.

Lemma count_true_take_S (mask : list bool) (m : bool) (k : nat) :
  count_true (take (S k) (m :: mask))
  = ((if m then 1 else 0) + count_true (take k mask))%nat.
Proof. simpl. apply count_true_cons. Qed.

Lemma lookup_select {A} (mask : list bool) (xs : list A) (k : nat) (x : A) :
  length xs = length mask -> mask !! k = Some true -> xs !! k = Some x ->
  select mask xs !! count_true (take k mask) = Some x.
Proof.
  revert xs k. induction mask as [|m mask IH]; intros [|y xs] k; try done.
  intros [= Hlen] Hm Hx. destruct k as [|k].
  - simpl in Hm, Hx. injection Hm as ->. injection Hx as ->. done.
  - rewrite count_true_take_S. simpl in Hm, Hx.
    destruct m; simpl; by apply IH.
Qed.

Lemma lookup_filled_put {A} (mask : list bool) (vals a : list A) (fill : A)
    (k : nat) :
  length a = length mask -> length vals = count_true mask ->
  zip_with (fun x hidden => if hidden : bool then fill else x)
    (put mask vals a)
    (zip_with (fun old sel => if sel : bool then false else old)
       (negb <$> mask) mask) !! k
  = match mask !! k with
    | Some true => vals !! count_true (take k mask)
    | Some false => Some fill
    | None => None
    end.
Proof.
  revert vals a k. induction mask as [|m mask IH]; intros vals [|x a] k;
    try done.
  intros [= Hlen] Hvals. rewrite count_true_cons in Hvals.
  destruct m.
  - destruct vals as [|v vals]; [done|]. injection Hvals as Hvals.
    destruct k as [|k]; [done|].
    rewrite count_true_take_S. simpl. by apply IH.
  - destruct k as [|k]; [done|].
    rewrite count_true_take_S. simpl. by apply IH.
Qed.

Lemma ma_setmask_exact {A} (m : masked A) (mask : list bool) (vals : list A) :
  length vals = count_true mask ->
  ma_setmask m mask vals
  = Ok (mk_masked (put mask vals (ma_data m))
          (zip_with (fun old sel => if sel : bool then false else old)
             (ma_mask m) mask)
          (fill_value m)).
Proof.
  intros Hlen. unfold ma_setmask, np_setmask.
  by rewrite bool_decide_eq_true_2.
Qed.

Section projection_nearest.
Context `{HP : Healpy} `{AP : !Astropy}.

(** X3: nearest-neighbour projection gathers: when [hp_to_wcs] succeeds at
    order 0, the entry of a pixel whose sky position is undefined is
    not-a-number, and the entry of any other pixel is the value the map
    holds at the index [ang2pix] gives for the colatitude and longitude of
    that pixel, taken in the frame of the map. *)
Theorem hp_to_wcs_nearest (hp_hdu : ImageHDU) (wcs : WCS) (shape_out : nat * nat)
    (proj_map : ndarray float) :
  hp_to_wcs hp_hdu wcs shape_out 0 = Ok proj_map ->
  exists (nside : Z) (nest : bool) (alon alat : list float),
    npix2nside (Z.of_nat (length (hdu_data hp_hdu))) = Ok nside /\
    hp_is_nest (hdu_header hp_hdu) = Ok nest /\
    rotate_frame (pixel_centres wcs shape_out).*1 (pixel_centres wcs shape_out).*2
      (hdu_header hp_hdu) wcs = Ok (alon, alat) /\
    forall (k : nat) (c : float * float) (lon lat : float),
      pixel_centres wcs shape_out !! k = Some c ->
      alon !! k = Some lon -> alat !! k = Some lat ->
      (inside c = false -> flat proj_map !! k = Some nan) /\
      (inside c = true ->
         exists v,
           np_index (hdu_data hp_hdu)
             (ang2pix nside nest (radians (ninety_minus lat)) (radians lon))
           = Ok v /\
           flat proj_map !! k = Some v).
Proof.
  unfold hp_to_wcs.
  set (centres := pixel_centres wcs shape_out).
  intros ([alon alat] & Hrot & (m & Hm & [= <-])%bind_Ok)%bind_Ok.
  simpl in Hm.
  apply bind_Ok in Hm as (nside & Hnside & Hm).
  apply bind_Ok in Hm as (nest & Hnest & Hm).
  apply bind_Ok in Hm as (vals & Hvals & Hm).
  exists nside, nest, alon, alat. do 3 (split; [done|]).
  pose proof (length_pixel_centres wcs shape_out) as Hlen. fold centres in Hlen.
  destruct (rotate_frame_length _ _ _ _ _ _ Hrot) as [Hlon Hlat];
    [by rewrite !length_fmap|].
  rewrite length_fmap in Hlon, Hlat.
  set (mask := inside <$> centres) in *.
  set (theta := (fun lat => radians (ninety_minus lat)) <$> alat) in *.
  set (phi := radians <$> alon) in *.
  assert (length (zip_with (ang2pix nside nest) (select mask theta) (select mask phi)) = count_true mask) as Hcount
    by (rewrite length_zip_with, !length_select; [lia|..]; unfold mask, theta, phi; rewrite !length_fmap; done).
  apply mapM_Ok in Hvals.
  rewrite ma_setmask_exact in Hm
    by (by rewrite <- (Forall2_length _ _ _ Hvals)).
  injection Hm as <-.
  intros k c lon lat Hc Hlo Hla. unfold ma_filled. simpl.
  rewrite lookup_filled_put.
  2:{ unfold mask. by rewrite length_replicate, length_fmap. }
  2:{ by rewrite <- (Forall2_length _ _ _ Hvals). }
  assert (mask !! k = Some (inside c)) as ->.
  { unfold mask. by rewrite list_lookup_fmap, Hc. }
  split; intros Hin; rewrite Hin; [done|].
  assert (zip_with (ang2pix nside nest) (select mask theta) (select mask phi)
            !! count_true (take k mask)
          = Some (ang2pix nside nest (radians (ninety_minus lat)) (radians lon)))
    as Hix.
  { rewrite lookup_zip_with.
    rewrite (lookup_select mask theta k (radians (ninety_minus lat))).
    - rewrite (lookup_select mask phi k (radians lon)); [done|..].
      + unfold mask, phi. by rewrite !length_fmap.
      + unfold mask. by rewrite list_lookup_fmap, Hc, <- Hin.
      + unfold phi. by rewrite list_lookup_fmap, Hlo.
    - unfold mask, theta. by rewrite !length_fmap.
    - unfold mask. by rewrite list_lookup_fmap, Hc, <- Hin.
    - unfold theta. by rewrite list_lookup_fmap, Hla. }
  destruct (Forall2_lookup_l _ _ _ _ _ Hvals Hix) as (v & Hv & Hget).
  exists v. done.
Qed.

Lemma hp_to_wcs_of_ipx_core (hp_hdu : ImageHDU) (wcs : WCS) (shape_out : nat * nat)
    (nside : Z) :
  hdu_header hp_hdu !! "NSIDE" = Some (VInt nside) ->
  npix2nside (Z.of_nat (length (hdu_data hp_hdu))) = Ok nside ->
  hp_to_wcs hp_hdu wcs shape_out 0
  = (out ← hp_to_wcs_ipx (hdu_header hp_hdu) wcs shape_out;
     project_with (hdu_data hp_hdu) shape_out out.1 out.2).
Proof.
  intros Hn Hnside. unfold hp_to_wcs, hp_to_wcs_ipx, getitem.
  rewrite Hn. simpl.
  destruct (rotate_frame _ _ _ _) as [[alon alat]|e]; simpl; [|done].
  rewrite Hnside. simpl.
  destruct (hp_is_nest (hdu_header hp_hdu)) as [nest|e]; simpl; [|done].
  unfold project_with. simpl.
  destruct (np_take _ _) as [vals|e]; simpl; [|done].
  by destruct (ma_setmask _ _ _).
Qed.

(** X4: the mask and the indices of [hp_to_wcs_ipx] are those of
    [hp_to_wcs]: when the NSIDE of the header is the resolution of the
    data, projecting at order 0 is resolving the indices once and applying
    the recipe of the docstring to the data, errors included. *)
Theorem hp_to_wcs_of_ipx (hp_hdu : ImageHDU) (wcs : WCS) (shape_out : nat * nat)
    (nside : Z) :
  hdu_header hp_hdu !! "NSIDE" = Some (VInt nside) ->
  npix2nside (Z.of_nat (length (hdu_data hp_hdu))) = Ok nside ->
  hp_to_wcs hp_hdu wcs shape_out 0
  = (out ← hp_to_wcs_ipx (hdu_header hp_hdu) wcs shape_out;
     project_with (hdu_data hp_hdu) shape_out out.1 out.2).
Proof. exact (hp_to_wcs_of_ipx_core hp_hdu wcs shape_out nside). Qed.

End projection_nearest.

Lemma hp_to_wcs_nearest_witness :
  exists proj_map : ndarray float,
    hp_to_wcs ramp_map (grid Galactic 2) (2, 3)%nat 0 = Ok proj_map /\
    flat proj_map !! 1%nat = Some (Some 107) /\
    flat proj_map !! 2%nat = Some None.
Proof.
  exists (mk_ndarray (2, 3)%nat
            [Some 106; Some 107; None; Some 105; Some 106; None]).
  assert (hp_to_wcs ramp_map (grid Galactic 2) (2, 3)%nat 0
          = Ok (mk_ndarray (2, 3)%nat
                  [Some 106; Some 107; None; Some 105; Some 106; None]))
    as Hrun by reflexivity.
  split; [exact Hrun|].
  destruct (hp_to_wcs_nearest ramp_map (grid Galactic 2) (2, 3)%nat _ Hrun)
    as (nside & nest & alon & alat & Hn & Hnest & Hrot & Hk).
  vm_compute in Hn, Hnest, Hrot.
  injection Hn as <-. injection Hnest as <-. injection Hrot as <- <-.
  split.
  - pose proof (Hk 1%nat (Some 1, Some 0) (Some 1) (Some 0)
                  eq_refl eq_refl eq_refl) as [_ Hin].
    destruct (Hin eq_refl) as (v & Hv & Hget).
    vm_compute in Hv. injection Hv as <-. exact Hget.
  - pose proof (Hk 2%nat (None, None) None None eq_refl eq_refl eq_refl)
      as [Hout _].
    apply Hout. reflexivity.
Defined.

Lemma hp_to_wcs_of_ipx_witness :
  hp_to_wcs ramp_map (grid ICRS 2) (2, 3)%nat 0
  = (out ← hp_to_wcs_ipx (hdu_header ramp_map) (grid ICRS 2) (2, 3)%nat;
     project_with (hdu_data ramp_map) (2, 3)%nat out.1 out.2).
Proof.
  apply (hp_to_wcs_of_ipx ramp_map (grid ICRS 2) (2, 3)%nat 1); reflexivity.
Defined.

(** ** hp_to_profile, once more *)

(** A pixel of the last of a sequence of sets that is not in the first one
    enters at some step. *)
Lemma first_disc_holding (D : nat -> list Z) (n : nat) (p : Z) :
  p ∈ D n -> p ∉ D 0%nat ->
  exists i, (i < n)%nat /\ p ∈ D (S i) /\ p ∉ D i.
Proof.
  induction n as [|n IH]; intros Hp Hnot; [done|].
  destruct (decide (p ∈ D n)) as [Hin|Hout].
  - destruct (IH Hin Hnot) as (i & Hi & Hpi). exists i. split; [lia|done].
  - exists n. split; [lia|done].
Qed.

Section profile_more.
Context `{HP : Healpy} `{AP : !Astropy} `{WH : !WcsHelper}.

Lemma hp_to_profile_std_core (hp_hdu : ImageHDU) (wcs : WCS1D) (coord : SkyCoord)
    (shape_out : nat) (std : bool) (profile : list float)
    (std_profile : option (list float)) :
  hp_to_profile hp_hdu wcs coord shape_out std = Ok (profile, std_profile) ->
  length profile = shape_out /\
  hp_to_profile hp_hdu wcs coord shape_out false = Ok (profile, None) /\
  (if std then exists s, std_profile = Some s /\ length s = shape_out
   else std_profile = None).
Proof.
  unfold hp_to_profile.
  intros (coordsys & -> & Hk)%bind_Ok. simpl.
  apply bind_Ok in Hk as ([lon lat] & -> & Hk). simpl.
  apply bind_Ok in Hk as (nside & -> & Hk). simpl.
  apply bind_Ok in Hk as (nest & -> & Hk). simpl.
  apply bind_Ok in Hk as (n & -> & Hk). simpl.
  set (i_pix := (fun radius => query_disc n (dir2vec lon lat) (radians radius) nest)
                  <$> r_edges wcs shape_out) in *.
  set (a_pix := zip_with setxor1d (take (length i_pix - 1) i_pix) (drop 1 i_pix))
    in *.
  assert (Halen : length a_pix = shape_out).
  { unfold a_pix, i_pix, r_edges.
    rewrite length_zip_with, length_take, length_drop, !length_fmap, length_seqZ.
    lia. }
  apply bind_Ok in Hk as (p & Hp & Hk). rewrite Hp. simpl.
  assert (length p = shape_out) as Hplen.
  { apply mapM_Ok, Forall2_length in Hp. lia. }
  destruct std; simpl in Hk.
  - apply bind_Ok in Hk as (s & Hs & [= <- <-]).
    split; [done|]. split; [done|]. exists s. split; [done|].
    apply mapM_Ok, Forall2_length in Hs. lia.
  - injection Hk as <- <-. done.
Qed.

(** X5: the flag [std] adds the standard deviations and changes nothing
    else: whenever [hp_to_profile] returns, the profile has shape_out
    values and is the one returned without the flag; the standard
    deviations are there exactly when asked for, one per bin. *)
Theorem hp_to_profile_std (hp_hdu : ImageHDU) (wcs : WCS1D) (coord : SkyCoord)
    (shape_out : nat) (std : bool) (profile : list float)
    (std_profile : option (list float)) :
  hp_to_profile hp_hdu wcs coord shape_out std = Ok (profile, std_profile) ->
  length profile = shape_out /\
  hp_to_profile hp_hdu wcs coord shape_out false = Ok (profile, None) /\
  (if std then exists s, std_profile = Some s /\ length s = shape_out
   else std_profile = None).
Proof. exact (hp_to_profile_std_core hp_hdu wcs coord shape_out std profile std_profile). Qed.

(** X6: when the discs queried at the bin edges are nested, each inside
    the next, the pixels of a bin are those of its outer disc that are not
    in its inner disc; two different bins share no pixel; and every pixel
    of the last disc that is not in the first falls in some bin. *)
Theorem hp_to_profile_annuli_partition (nside : Z) (nest : bool)
    (lon lat : float) (wcs : WCS1D) (shape_out : nat) :
  let D := disc nside nest lon lat wcs in
  let annulus i := setxor1d (D i) (D (S i)) in
  (forall k, (k < shape_out)%nat -> D k ⊆ D (S k)) ->
  (forall i p, (i < shape_out)%nat ->
     p ∈ annulus i <-> p ∈ D (S i) /\ p ∉ D i) /\
  (forall i j p, (i < j < shape_out)%nat -> p ∈ annulus i -> p ∉ annulus j) /\
  (forall p, p ∈ D shape_out -> p ∉ D 0%nat ->
     exists i, (i < shape_out)%nat /\ p ∈ annulus i).
Proof.
  intros D annulus Hnested.
  assert (Hann : forall i p, (i < shape_out)%nat ->
            p ∈ annulus i <-> p ∈ D (S i) /\ p ∉ D i).
  { intros i p Hi. unfold annulus. rewrite elem_of_setxor1d.
    specialize (Hnested i Hi p). tauto. }
  assert (Hmono : forall i j, (i <= j)%nat -> (j <= shape_out)%nat -> D i ⊆ D j).
  { intros i j Hij. induction Hij as [|j Hij IH]; intros Hj; [done|].
    etrans; [apply IH; lia|]. apply Hnested. lia. }
  split; [exact Hann|]. split.
  - intros i j p [Hij Hj] Hi Hjn.
    assert (i < shape_out)%nat as Hi' by lia.
    apply (proj1 (Hann i p Hi')) in Hi as [Hi _].
    apply (proj1 (Hann j p Hj)) in Hjn as [_ Hjn].
    apply Hjn. apply (Hmono (S i) j); [lia..|done].
  - intros p Hp Hnot.
    destruct (first_disc_holding D shape_out p Hp Hnot) as (i & Hi & Hpi).
    exists i. split; [done|]. by apply Hann.
Qed.

End profile_more.

Lemma hp_to_profile_std_witness :
  exists profile s : list float,
    hp_to_profile (uniform_map 7) radius_grid origin 3 true
    = Ok (profile, Some s) /\
    length profile = 3%nat /\ length s = 3%nat /\
    hp_to_profile (uniform_map 7) radius_grid origin 3 false = Ok (profile, None).
Proof.
  exists [Some 7; Some 7; Some 7], [Some 0; Some 0; Some 0].
  assert (hp_to_profile (uniform_map 7) radius_grid origin 3 true
          = Ok ([Some 7; Some 7; Some 7], Some [Some 0; Some 0; Some 0]))
    as Hrun by reflexivity.
  split; [exact Hrun|].
  destruct (hp_to_profile_std (uniform_map 7) radius_grid origin 3 true _ _ Hrun)
    as (Hlen & Hsame & s & Hs & Hslen).
  injection Hs as <-. done.
Defined.

Lemma hp_to_profile_annuli_partition_witness :
  let D := disc 1 false centre.1 centre.2 radius_grid in
  (forall p, p ∈ setxor1d (D 2%nat) (D 3%nat) <-> p ∈ D 3%nat /\ p ∉ D 2%nat) /\
  (forall p, p ∈ setxor1d (D 0%nat) (D 1%nat) -> p ∉ setxor1d (D 2%nat) (D 3%nat)).
Proof.
  intros D.
  destruct (hp_to_profile_annuli_partition 1 false centre.1 centre.2
              radius_grid 3) as (Hann & Hdisj & _).
  - intros k Hk p. unfold disc. simpl. rewrite !elem_of_seqZ.
    assert (k = 0 \/ k = 1 \/ k = 2)%nat as Hcases by lia.
    destruct Hcases as [Hk0|[Hk1|Hk2]]; subst k; vm_compute Qceiling; lia.
  - split.
    + intros p. apply (Hann 2%nat). lia.
    + intros p. apply (Hdisj 0%nat 2%nat). lia.
Defined.

(** ** build_hpmap, gen_hpmap, to_new_maps *)

Lemma Forall2_fmap_eq {A B C} (R : A -> B -> Prop) (f : A -> C) (g : B -> C)
    (l : list A) (k : list B) :
  Forall2 R l k -> (forall x y, R x y -> g y = f x) -> g <$> k = f <$> l.
Proof.
  intros HR Hfg. induction HR as [|x y l k Hxy _ IH]; [done|].
  rewrite !fmap_cons. by rewrite (Hfg x y Hxy), IH.
Qed.

Section maps_properties.
Context `{HP : Healpy} `{AP : !Astropy} `{WH : !WcsHelper} `{CO : !Collaborators}.

(** X7: reading late or early gives the same maps.  Whether [build_hpmap]
    left the pixels on disk (low_mem) or read them, [gen_hpmap] yields, for
    each file and in the order of the list, the name of the file, the
    pixels [read_map] gives for it and the header [getheader] gave. *)
Theorem gen_hpmap_build_hpmap (filenames : list string) (low_mem : bool)
    (maps : list (hp_map float)) :
  build_hpmap filenames low_mem = Ok maps ->
  length maps = length filenames /\
  forall (i : nat) (filename : string),
    filenames !! i = Some filename ->
    exists hp_header,
      getheader filename = Ok hp_header /\
      gen_hpmap maps !! i
      = Some (data ← read_map filename; Ok (filename, mk_hdu data hp_header)).
Proof.
  unfold build_hpmap. intros Hmaps%mapM_Ok. split.
  - symmetry. by eapply Forall2_length.
  - intros i filename Hi.
    destruct (Forall2_lookup_l _ _ _ _ _ Hmaps Hi) as (m & Hm & Hbuild).
    apply bind_Ok in Hbuild as (hp_header & Hhdr & Hbuild).
    apply bind_Ok in Hbuild as (i_map & Hmap & [= <-]).
    exists hp_header. split; [done|].
    unfold gen_hpmap, hp_map in *. rewrite list_lookup_fmap, Hm. simpl.
    destruct low_mem.
    + injection Hmap as <-. done.
    + destruct (read_map filename) as [data|e]; [|done].
      injection Hmap as <-. done.
Qed.

(** X8: [to_new_maps] turns the dictionary of the old interface into the
    list of the new one, entry by entry: the list has one pair per legend
    of the dictionary, each with the filename of its entry, the legend
    under 'legend', the 'doContour' of the entry when it has one and
    nothing else; no two pairs have the same legend. *)
Theorem to_new_maps_entries (maps : gmap string header)
    (new_maps : list (string * header)) :
  to_new_maps maps = Ok new_maps ->
  length new_maps = size maps /\
  NoDup ((fun new : string * header => new.2 !! "legend") <$> new_maps) /\
  (forall new, new ∈ new_maps ->
     exists key entry, maps !! key = Some entry /\ converted key entry new) /\
  (forall key entry, maps !! key = Some entry ->
     exists new, new ∈ new_maps /\ converted key entry new).
Proof.
  unfold to_new_maps. intros Hall%mapM_Ok.
  assert (Hconv : Forall2 (fun kv new => converted kv.1 kv.2 new)
                    (map_to_list maps) new_maps).
  { eapply Forall2_impl; [exact Hall|].
    intros [key entry] new Hnew. simpl in *.
    apply bind_Ok in Hnew as (filename & Hf & Hnew).
    apply bind_Ok in Hnew as (f & Hs & [= <-]).
    unfold getitem in Hf. destruct (entry !! "filename") as [v|] eqn:Hv; [|done].
    injection Hf as ->. destruct filename; try done. injection Hs as ->.
    unfold converted. simpl. split; [done|].
    destruct (entry !! "doContour") as [c|] eqn:Hc.
    - split; [by rewrite lookup_insert_ne, lookup_singleton_eq|].
      split; [by rewrite lookup_insert_eq|].
      intros k Hk1 Hk2. by rewrite lookup_insert_ne, lookup_singleton_ne.
    - split; [by rewrite lookup_singleton_eq|].
      split; [by rewrite lookup_singleton_ne|].
      intros k Hk1 Hk2. by rewrite lookup_singleton_ne. }
  split; [|split; [|split]].
  - rewrite <- (Forall2_length _ _ _ Hconv). apply length_map_to_list.
  - rewrite (Forall2_fmap_eq _ (fun kv : string * header => Some (VStr kv.1)) _
               _ _ Hconv).
    + apply (NoDup_fmap_2_strong (fun kv : string * header => Some (VStr kv.1))).
      * intros [k1 e1] [k2 e2] H1 H2 [= Hk]. simpl in Hk. subst k2.
        apply elem_of_map_to_list in H1, H2. congruence.
      * apply NoDup_map_to_list.
    + intros kv new (_ & Hl & _). done.
  - intros new Hnew. apply list_elem_of_lookup in Hnew as [i Hi].
    destruct (Forall2_lookup_r _ _ _ _ _ Hconv Hi) as ([key entry] & Hkv & Hc).
    exists key, entry. split; [|done].
    apply elem_of_map_to_list. apply list_elem_of_lookup. by exists i.
  - intros key entry Hkey. apply elem_of_map_to_list in Hkey.
    apply list_elem_of_lookup in Hkey as [i Hi].
    destruct (Forall2_lookup_l _ _ _ _ _ Hconv Hi) as (new & Hnew & Hc).
    exists new. split; [|done]. apply list_elem_of_lookup. by exists i.
Qed.

End maps_properties.

Lemma gen_hpmap_build_hpmap_witness :
  exists maps : list (hp_map float),
    build_hpmap ["a.fits"; "b.fits"] false = Ok maps /\
    length maps = 2%nat /\
    exists hp_header,
      getheader "b.fits" = Ok hp_header /\
      gen_hpmap maps !! 1%nat
      = Some (data ← read_map "b.fits"; Ok ("b.fits", mk_hdu data hp_header)).
Proof.
  destruct (build_hpmap ["a.fits"; "b.fits"] false) as [maps|e] eqn:Hrun;
    [|discriminate Hrun].
  exists maps. split; [reflexivity|].
  destruct (gen_hpmap_build_hpmap ["a.fits"; "b.fits"] false maps Hrun)
    as [Hlen Hitems].
  split; [exact Hlen|]. apply (Hitems 1%nat "b.fits"). reflexivity.
Defined.

Lemma to_new_maps_entries_witness :
  let old : gmap string header :=
    {[ "a" := {[ "filename" := VStr "a.fits"; "doContour" := VBool true ]} ]} in
  exists new_maps : list (string * header),
    to_new_maps old = Ok new_maps /\
    length new_maps = 1%nat /\
    exists new, new ∈ new_maps /\
      new.1 = "a.fits" /\ new.2 !! "legend" = Some (VStr "a") /\
      new.2 !! "doContour" = Some (VBool true).
Proof.
  intros old.
  destruct (to_new_maps old) as [new_maps|e] eqn:Hrun; [|discriminate Hrun].
  exists new_maps. split; [reflexivity|].
  destruct (to_new_maps_entries old new_maps Hrun) as (Hlen & _ & _ & Hall).
  split; [exact Hlen|].
  destruct (Hall "a" {[ "filename" := VStr "a.fits"; "doContour" := VBool true ]})
    as (new & Hin & Hf & Hl & Hc & _); [reflexivity|].
  exists new. split; [exact Hin|]. split; [|split; [exact Hl|exact Hc]].
  change (Some (VStr "a.fits") = Some (VStr new.1)) in Hf.
  injection Hf as <-. reflexivity.
Defined.

(** ** cut_fits, cut_png, cut_phot, cutsky *)

Lemma filter_all {A} (P : A -> Prop) `{forall x, Decision (P x)} (l : list A) :
  (forall x, P x) -> filter P l = l.
Proof.
  intros HP. induction l as [|x l IH]; [done|].
  by rewrite filter_cons_True, IH.
Qed.

Lemma Forall_fmap_all {A B} (P : B -> Prop) (f : A -> B) (l : list A) :
  (forall x, P (f x)) -> Forall P (f <$> l).
Proof. intros Hf. apply Forall_fmap, Forall_true. intros x. apply Hf. Qed.

Section cut_properties.
Context `{HP : Healpy} `{AP : !Astropy} `{WH : !WcsHelper} `{CO : !Collaborators}.

Lemma hp_to_wcs_ipx_mask_length (h : header) (wcs : WCS) (shape_out : nat * nat)
    (mask : ndarray bool) (ipix : list Z) :
  hp_to_wcs_ipx h wcs shape_out = Ok (mask, ipix) ->
  length (flat mask) = (shape_out.1 * shape_out.2)%nat.
Proof.
  unfold hp_to_wcs_ipx. intros (nside & _ & Hk)%bind_Ok.
  apply bind_Ok in Hk as ([alon alat] & _ & Hk). simpl in Hk.
  apply bind_Ok in Hk as (nest & _ & Hk).
  apply bind_Ok in Hk as (n & _ & [= <- _]). simpl.
  rewrite length_fmap. apply length_pixel_centres.
Qed.

(** One pass of the inner loop of [cut_fits]. *)
Lemma cut_group_step (self : CutSky) (w : WCS) (mask : list bool) (ipix : list Z)
    (m : hp_map float) (maps : list (hp_map float)) (cuts cuts' : list cut) :
  cut_group self w mask ipix (gen_hpmap (m :: maps)) cuts = Ok cuts' ->
  exists legend, m.2 !! "legend" = Some legend /\
    ((skipped (self_maps_selection self) legend = true /\
      cut_group self w mask ipix (gen_hpmap maps) cuts = Ok cuts') \/
     (skipped (self_maps_selection self) legend = false /\
      exists c, cut_legend c = legend /\
        (length mask = (self_npix self * self_npix self)%nat ->
         fresh_cut (self_npix self) c) /\
        cut_group self w mask ipix (gen_hpmap maps) (cuts ++ [c]) = Ok cuts')).
Proof.
  destruct m as [[filename i_map] i_header]. simpl.
  intros ([f hdu] & Hitem & Hk)%bind_Ok.
  apply bind_Ok in Hitem as (data & _ & [= <- <-]). simpl in Hk.
  apply bind_Ok in Hk as (legend & Hlegend & Hk).
  unfold getitem in Hlegend.
  destruct (i_header !! "legend") as [v|] eqn:Hv; [|done].
  injection Hlegend as ->. exists legend. split; [done|].
  destruct (skipped (self_maps_selection self) legend); [by left|right].
  split; [done|].
  apply bind_Ok in Hk as (vals & _ & Hk).
  apply bind_Ok in Hk as (patch & Hpatch & Hk).
  eexists. split; [|split; [|exact Hk]]; [done|].
  intros Hmask. unfold fresh_cut. simpl.
  unfold ma_setmask in Hpatch.
  apply bind_Ok in Hpatch as (d & Hd & [= <-]). simpl.
  apply np_setmask_length in Hd. simpl in Hd.
  rewrite length_replicate in Hd.
  split; [done|]. split; [by rewrite length_zip_with, length_fmap, Hmask, Nat.min_id|].
  split; [done|]. split; [|done].
  rewrite elem_of_app, !elem_of_cons. right. right. by left.
Qed.

Lemma cut_group_spec (self : CutSky) (w : WCS) (mask : list bool) (ipix : list Z)
    (maps : list (hp_map float)) (cuts cuts' : list cut) :
  cut_group self w mask ipix (gen_hpmap maps) cuts = Ok cuts' ->
  cut_legend <$> cuts'
  = (cut_legend <$> cuts)
    ++ filter (selected (self_maps_selection self))
         ((fun m : hp_map float => get m.2 "legend") <$> maps) /\
  (length mask = (self_npix self * self_npix self)%nat ->
   Forall (fresh_cut (self_npix self)) cuts ->
   Forall (fresh_cut (self_npix self)) cuts').
Proof.
  revert cuts. induction maps as [|m maps IH]; intros cuts.
  - intros [= <-]. split; [by rewrite fmap_nil, filter_nil, app_nil_r|done].
  - intros (legend & Hl & [[Hskip Hk]|(Hkeep & c & Hc & Hfresh & Hk)])%cut_group_step.
    + destruct (IH _ Hk) as [IH1 IH2]. split; [|done].
      rewrite IH1, fmap_cons, filter_cons_False; [done|].
      unfold selected, get. rewrite Hl. simpl. by rewrite Hskip.
    + destruct (IH _ Hk) as [IH1 IH2]. split.
      * rewrite IH1, fmap_cons, filter_cons_True.
        -- rewrite fmap_app, <- app_assoc. simpl. unfold get. rewrite Hl, Hc. done.
        -- unfold selected, get. by rewrite Hl.
      * intros Hmask Hcuts. apply IH2; [done|].
        apply Forall_app. split; [done|]. constructor; [by apply Hfresh|constructor].
Qed.

Lemma cut_groups_spec (self : CutSky) (w : WCS)
    (groups : list (string * list (hp_map float))) (cuts cuts' : list cut) :
  cut_groups self w groups cuts = Ok cuts' ->
  cut_legend <$> cuts'
  = (cut_legend <$> cuts)
    ++ filter (selected (self_maps_selection self)) (map_legends groups) /\
  (Forall (fresh_cut (self_npix self)) cuts ->
   Forall (fresh_cut (self_npix self)) cuts').
Proof.
  revert cuts. induction groups as [|[group maps] groups IH]; intros cuts.
  - intros [= <-]. unfold map_legends. simpl.
    split; [by rewrite filter_nil, app_nil_r|done].
  - simpl. intros (hp_header & _ & Hk)%bind_Ok.
    apply bind_Ok in Hk as ([mask ipix] & Hipx & Hk). simpl in Hk.
    apply bind_Ok in Hk as (cuts1 & Hgroup & Hk).
    apply hp_to_wcs_ipx_mask_length in Hipx. simpl in Hipx.
    destruct (cut_group_spec _ _ _ _ _ _ _ Hgroup) as [Hg1 Hg2].
    destruct (IH _ Hk) as [IH1 IH2]. split.
    + rewrite IH1, Hg1. unfold map_legends. simpl.
      rewrite fmap_app, filter_app, app_assoc. done.
    + intros Hcuts. apply IH2. by apply Hg2.
Qed.

(** X9: [cut_fits] honours the selection.  The legends of the cuts it
    returns are those of the maps of the instance, in their order, that the
    selection lets through: with a selection that is not empty, every
    cut has its legend in the selection; with no selection, or an empty
    one, there is one cut per map. *)
Theorem cut_fits_legends (self self' : CutSky) (lonlat : float * float)
    (coordframe : string) (maps_selection : option (list value))
    (cuts : list cut) :
  cut_fits self lonlat coordframe maps_selection = Ok (self', cuts) ->
  cut_legend <$> cuts
  = filter (selected maps_selection) (map_legends (self_maps self)) /\
  (forall sel, maps_selection = Some sel -> sel <> [] ->
     Forall (fun c => cut_legend c ∈ sel) cuts) /\
  (maps_selection = None \/ maps_selection = Some [] ->
     cut_legend <$> cuts = map_legends (self_maps self)).
Proof.
  unfold cut_fits. intros (_ & _ & Hk)%bind_Ok.
  apply bind_Ok in Hk as (cuts0 & Hcuts & [= _ ->]).
  apply cut_groups_spec in Hcuts as [Hlegends _]. simpl in Hlegends.
  split; [done|]. split.
  - intros sel -> Hsel.
    assert (Forall (fun l => l ∈ sel) (cut_legend <$> cuts)) as Hall.
    { rewrite Hlegends. apply Forall_forall. intros l [Hl _]%list_elem_of_filter.
      unfold selected, skipped in Hl. destruct sel as [|x sel]; [done|].
      apply negb_false_iff, bool_decide_eq_true in Hl. done. }
    by apply Forall_fmap in Hall.
  - intros Hnone. rewrite Hlegends. apply filter_all.
    intros l. unfold selected. by destruct Hnone as [-> | ->].
Qed.

Lemma cut_fits_patches_core (self self' : CutSky) (lonlat : float * float)
    (coordframe : string) (maps_selection : option (list value))
    (cuts : list cut) :
  cut_fits self lonlat coordframe maps_selection = Ok (self', cuts) ->
  Forall (fresh_cut (self_npix self)) cuts /\
  self' = mk_CutSky (self_npix self) (self_pixsize self) (self_ctype self)
            (self_maps self) maps_selection (Some cuts) (Some lonlat) coordframe.
Proof.
  unfold cut_fits. intros (_ & _ & Hk)%bind_Ok.
  apply bind_Ok in Hk as (cuts0 & Hcuts & [= <- <-]).
  apply cut_groups_spec in Hcuts as [_ Hfresh]. simpl in Hfresh.
  split; [|done]. apply Hfresh. constructor.
Qed.

(** X10: every cut [cut_fits] returns is a patch of npix x npix entries,
    with a mask of the same size and not-a-number as fill value, a header
    that carries its legend, and no image or photometry yet; and the
    instance remembers the request and the cuts. *)
Theorem cut_fits_patches (self self' : CutSky) (lonlat : float * float)
    (coordframe : string) (maps_selection : option (list value))
    (cuts : list cut) :
  cut_fits self lonlat coordframe maps_selection = Ok (self', cuts) ->
  Forall (fresh_cut (self_npix self)) cuts /\
  self' = mk_CutSky (self_npix self) (self_pixsize self) (self_ctype self)
            (self_maps self) maps_selection (Some cuts) (Some lonlat) coordframe.
Proof. exact (cut_fits_patches_core self self' lonlat coordframe maps_selection cuts). Qed.

Lemma same_cut_remembered (self : CutSky) (lonlat : float * float)
    (coordframe : string) (maps_selection : option (list value))
    (cuts : list cut) :
  self_lonlat self = Some lonlat -> self_coordframe self = coordframe ->
  self_maps_selection self = maps_selection -> self_cuts self = Some cuts ->
  cuts <> [] ->
  float_eqb lonlat.1 lonlat.1 = true -> float_eqb lonlat.2 lonlat.2 = true ->
  same_cut self lonlat coordframe maps_selection = true.
Proof.
  intros Hl Hc Hs Hcuts Hne H1 H2. unfold same_cut, lonlat_eqb.
  rewrite Hl, Hc, Hs, Hcuts, H1, H2, String.eqb_refl. simpl.
  rewrite bool_decide_eq_true_2 by done. by destruct cuts.
Qed.

Lemma attach_same_patches (f : cut -> option png) (g : cut -> option phot)
    (cuts : list cut) :
  same_patches cuts
    ((fun c => mk_cut (cut_legend c) (cut_patch c) (cut_header c) (f c) (g c))
     <$> cuts).
Proof.
  unfold same_patches. rewrite <- !list_fmap_compose. done.
Qed.

(** X11: a [cut_png] or a [cut_phot] that follows a [cut_fits] for the same
    position, frame and selection cuts nothing again: provided the
    position compares equal to itself and there is at least one cut, it
    hands back the cuts of the [cut_fits], selection included, with the
    image, or the photometry, attached. *)
Theorem cut_fits_then_reuse (self self' : CutSky) (lonlat : float * float)
    (coordframe : string) (maps_selection : option (list value))
    (cuts : list cut) :
  cut_fits self lonlat coordframe maps_selection = Ok (self', cuts) ->
  cuts <> [] ->
  float_eqb lonlat.1 lonlat.1 = true -> float_eqb lonlat.2 lonlat.2 = true ->
  cut_or_reuse self' lonlat coordframe maps_selection = Ok (self', cuts) /\
  (exists st out,
     cut_png self' lonlat coordframe maps_selection = Ok (st, out) /\
     same_patches cuts out /\
     Forall (fun c => is_Some (cut_png_of c)) out) /\
  (exists st out,
     cut_phot self' lonlat coordframe maps_selection = Ok (st, out) /\
     same_patches cuts out /\
     Forall (fun c => is_Some (cut_phot_of c)) out).
Proof.
  intros [_ ->]%cut_fits_patches_core Hne H1 H2.
  set (self' := mk_CutSky _ _ _ _ _ _ _ _).
  assert (cut_or_reuse self' lonlat coordframe maps_selection = Ok (self', cuts))
    as Hreuse.
  { unfold cut_or_reuse.
    by rewrite (same_cut_remembered self' lonlat coordframe maps_selection cuts). }
  split; [done|]. split.
  - unfold cut_png. rewrite Hreuse. simpl.
    destruct cuts as [|c cuts]; [done|]. simpl.
    eexists _, _. split; [reflexivity|]. split.
    + apply (attach_same_patches _ cut_phot_of (c :: cuts)).
    + constructor; [by eexists|].
      apply Forall_fmap_all. intros c'. simpl. by eexists.
  - unfold cut_phot. rewrite Hreuse. simpl.
    eexists _, _. split; [reflexivity|]. split.
    + apply (attach_same_patches cut_png_of _ cuts).
    + apply Forall_fmap_all. intros c'. simpl. by eexists.
Qed.

(** X12: what [cutsky] returns, when its position compares equal to
    itself, is a list of cuts that all carry their image and their
    photometry: the [cut_phot] it ends with reuses the cuts of its
    [cut_png]. *)
Theorem cutsky_png_and_phot (lonlat : float * float) (maps : option maps_arg)
    (patch : nat * float) (coordframe ctype : string) (result : list cut) :
  cutsky (Some lonlat) maps patch coordframe ctype = Ok result ->
  float_eqb lonlat.1 lonlat.1 = true -> float_eqb lonlat.2 lonlat.2 = true ->
  result <> [] /\
  Forall (fun c => is_Some (cut_png_of c) /\ is_Some (cut_phot_of c)) result.
Proof.
  unfold cutsky. destruct maps as [maps|]; [|done].
  intros (l & _ & Hk)%bind_Ok H1 H2.
  apply bind_Ok in Hk as (self & Hinit & Hk).
  apply bind_Ok in Hk as ([self1 cuts1] & Hpng & Hk).
  apply bind_Ok in Hk as ([self2 cuts2] & Hphot & [= <-]).
  unfold cut_png in Hpng.
  apply bind_Ok in Hpng as ([self0 cuts0] & Hcuts & Hpng).
  apply bind_Ok in Hpng as (c0 & Hc0 & [= <- <-]).
  assert (cuts0 <> []) as Hne by (by destruct cuts0).
  assert (self_lonlat self0 = Some lonlat /\ self_coordframe self0 = coordframe /\
          self_maps_selection self0 = None) as (Hl & Hc & Hs).
  { unfold cut_or_reuse in Hcuts.
    destruct (same_cut self lonlat coordframe None) eqn:Hsame.
    - injection Hcuts as <- _. unfold same_cut in Hsame.
      apply andb_true_iff in Hsame as [Hsame _].
      apply andb_true_iff in Hsame as [Hsame Hsel].
      apply andb_true_iff in Hsame as [Hll Hcf].
      unfold CutSky_init in Hinit.
      apply bind_Ok in Hinit as (? & _ & Hinit).
      apply bind_Ok in Hinit as (? & _ & Hinit).
      apply bind_Ok in Hinit as (? & _ & [= <-]). done.
    - apply cut_fits_patches_core in Hcuts as [_ ->]. done. }
  unfold cut_phot, cut_or_reuse in Hphot.
  rewrite (same_cut_remembered _ lonlat coordframe None
             ((fun c => mk_cut (cut_legend c) (cut_patch c) (cut_header c)
                          (Some (savefig (cut_patch c) (cut_header c)))
                          (cut_phot_of c)) <$> cuts0)) in Hphot;
    try done; [|by destruct cuts0].
  simpl in Hphot. injection Hphot as _ <-. split.
  - by destruct cuts0.
  - rewrite <- list_fmap_compose. apply Forall_fmap_all.
    intros c. simpl. split; by eexists.
Qed.

End cut_properties.

Lemma returned_ok {A} (r : result A) (otherwise : A) :
  is_ok r = true -> r = Ok (returned r otherwise).
Proof. by destruct r. Qed.

Lemma returned_pair {A B} (r : result (A * B)) (otherwise : A * B) :
  is_ok r = true ->
  r = Ok ((returned r otherwise).1, (returned r otherwise).2).
Proof. by destruct r as [[a b]|]. Qed.

Lemma cut_fits_legends_witness :
  let run := cut_fits fresh_self centre "galactic" (Some [VStr "b"]) in
  let out := returned run (fresh_self, []) in
  run = Ok (out.1, out.2) /\
  cut_legend <$> out.2 = [VStr "b"] /\
  Forall (fun c => cut_legend c ∈ [VStr "b"]) out.2.
Proof.
  intros run out.
  assert (run = Ok (out.1, out.2)) as Hrun
    by (apply returned_pair; vm_compute; reflexivity).
  split; [exact Hrun|].
  destruct (cut_fits_legends _ _ _ _ _ _ Hrun) as (Hlegends & Hsel & _).
  split.
  - rewrite Hlegends. vm_compute. reflexivity.
  - apply (Hsel [VStr "b"]); [reflexivity|discriminate].
Defined.

Lemma cut_fits_patches_witness :
  let run := cut_fits fresh_self centre "galactic" None in
  let out := returned run (fresh_self, []) in
  run = Ok (out.1, out.2) /\
  Forall (fresh_cut 2) out.2 /\
  self_cuts out.1 = Some out.2 /\ self_lonlat out.1 = Some centre.
Proof.
  intros run out.
  assert (run = Ok (out.1, out.2)) as Hrun
    by (apply returned_pair; vm_compute; reflexivity).
  split; [exact Hrun|].
  destruct (cut_fits_patches _ _ _ _ _ _ Hrun) as [Hfresh Hself].
  split; [exact Hfresh|]. rewrite Hself. split; reflexivity.
Defined.

Lemma cut_fits_then_reuse_witness :
  let run := cut_fits fresh_self centre "galactic" (Some [VStr "b"]) in
  let out := returned run (fresh_self, []) in
  run = Ok (out.1, out.2) /\
  cut_or_reuse out.1 centre "galactic" (Some [VStr "b"]) = Ok (out.1, out.2) /\
  exists st cuts,
    cut_png out.1 centre "galactic" (Some [VStr "b"]) = Ok (st, cuts) /\
    cut_legend <$> cuts = [VStr "b"].
Proof.
  intros run out.
  assert (run = Ok (out.1, out.2)) as Hrun
    by (apply returned_pair; vm_compute; reflexivity).
  split; [exact Hrun|].
  assert (cut_legend <$> out.2 = [VStr "b"]) as Hb
    by (vm_compute; reflexivity).
  destruct (cut_fits_then_reuse _ _ _ _ _ _ Hrun)
    as (Hreuse & (st & cuts & Hpng & (Hl & _) & _) & _).
  - intros Hnil. rewrite Hnil in Hb. discriminate Hb.
  - reflexivity.
  - reflexivity.
  - split; [exact Hreuse|]. exists st, cuts. split; [exact Hpng|].
    by rewrite Hl.
Defined.

Lemma cutsky_png_and_phot_witness :
  let run :=
    cutsky (Some centre) (Some two_maps) (2%nat, Some 1) "galactic" "TAN" in
  let result := returned run [] in
  run = Ok result /\
  result <> [] /\
  Forall (fun c => is_Some (cut_png_of c) /\ is_Some (cut_phot_of c)) result.
Proof.
  intros run result.
  assert (run = Ok result) as Hrun
    by (apply returned_ok; vm_compute; reflexivity).
  split; [exact Hrun|].
  apply (cutsky_png_and_phot centre (Some two_maps) (2%nat, Some 1)
           "galactic" "TAN" result Hrun); reflexivity.
Defined.

(** ** hp_project, hp_profile *)

Section hp_project_properties.
Context `{HP : Healpy} `{AP : !Astropy} `{WH : !WcsHelper} `{WB : !WcsBuilder}.

Lemma hp_to_wcs_Ok_order (hp_hdu : ImageHDU) (wcs : WCS) (shape_out : nat * nat)
    (order : Z) (proj_map : ndarray float) :
  hp_to_wcs hp_hdu wcs shape_out order = Ok proj_map -> order = 0 \/ order = 1.
Proof.
  unfold hp_to_wcs.
  intros ([alon alat] & _ & (m & Hm & _)%bind_Ok)%bind_Ok.
  destruct (order =? 0) eqn:H0; [left; by apply Z.eqb_eq|].
  destruct (order =? 1) eqn:H1; [right; by apply Z.eqb_eq|done].
Qed.

(** X13: [hp_project] returns only for the orders 0 and 1 and for a grid
    that could be built; what it returns is the projection of the map on
    that grid, of the shape asked for, with the header of the grid. *)
Theorem hp_project_returns (hp_hdu : ImageHDU) (coord : SkyCoord)
    (pixsize : float) (shape_out : nat * nat) (order : Z)
    (projection : string * string) (data : ndarray float)
    (hdr : list (string * value)) :
  hp_project hp_hdu coord pixsize shape_out order projection = Ok (data, hdr) ->
  (order = 0 \/ order = 1) /\
  shape data = shape_out /\
  length (flat data) = (shape_out.1 * shape_out.2)%nat /\
  exists wcs,
    build_wcs coord pixsize shape_out projection.1 projection.2 = Ok wcs /\
    hp_to_wcs hp_hdu wcs shape_out order = Ok data /\
    hdr = to_header wcs.
Proof.
  unfold hp_project. destruct projection as [proj_sys proj_type].
  intros (wcs & Hwcs & (proj_map & Hproj & [= <- <-])%bind_Ok)%bind_Ok.
  split; [by eapply hp_to_wcs_Ok_order|].
  destruct (hp_to_wcs_shape_core _ _ _ _ _ Hproj) as [Hshape Hlen].
  split; [done|]. split; [done|]. by exists wcs.
Qed.

(** X14: [hp_profile] returns npix values, the profile [hp_to_profile]
    gives on the radial grid built for the pixel size, with the header of
    that grid. *)
Theorem hp_profile_returns (hp_hdu : ImageHDU) (coord : SkyCoord)
    (pixsize : float) (npix : nat) (profile : list float)
    (hdr : list (string * value)) :
  hp_profile hp_hdu coord pixsize npix = Ok (profile, hdr) ->
  length profile = npix /\
  hp_to_profile hp_hdu (build_wcs_profile pixsize) coord npix false
  = Ok (profile, None) /\
  hdr = to_header_1d (build_wcs_profile pixsize).
Proof.
  unfold hp_profile. intros ([p s] & Hp & [= <- <-])%bind_Ok.
  destruct (hp_to_profile_std_core _ _ _ _ _ _ _ Hp) as (Hlen & Hsame & ->).
  done.
Qed.

End hp_project_properties.

Lemma hp_project_returns_witness :
  let run := hp_project ramp_map origin (Some 1) (2, 3)%nat 0 ("G", "TAN") in
  let out := returned run (mk_ndarray (0, 0)%nat [], []) in
  run = Ok (out.1, out.2) /\
  shape out.1 = (2, 3)%nat /\ length (flat out.1) = 6%nat.
Proof.
  intros run out.
  assert (run = Ok (out.1, out.2)) as Hrun
    by (apply returned_pair; vm_compute; reflexivity).
  split; [exact Hrun|].
  destruct (hp_project_returns _ _ _ _ _ _ _ _ Hrun) as (_ & Hshape & Hlen & _).
  split; [exact Hshape|exact Hlen].
Defined.

Lemma hp_profile_returns_witness :
  let run := hp_profile (uniform_map 7) origin (Some 1) 5 in
  let out := returned run ([], []) in
  run = Ok (out.1, out.2) /\ length out.1 = 5%nat.
Proof.
  intros run out.
  assert (run = Ok (out.1, out.2)) as Hrun
    by (apply returned_pair; vm_compute; reflexivity).
  split; [exact Hrun|].
  by destruct (hp_profile_returns _ _ _ _ _ _ Hrun) as (Hlen & _).
Defined.

(** ** combine_args *)

Section combine_args_properties.
Context `{FA : FloatArith}.


Lemma py_or_default (a b d : pyval) :
  py_truthy d = true -> py_truthy (py_or (py_or a b) d) = true.
Proof.
  intros Hd. unfold py_or.
  destruct (py_truthy a) eqn:Ha; [by rewrite Ha|].
  by destruct (py_truthy b) eqn:Hb.
Qed.

(** X15: whatever the command line and the configuration file hold, the
    number of pixels, the pixel size, the frame, the projection, the output
    directory and the level of the logger that [combine_args] returns hold
    a true value, never zero, the empty string or [None]; at least one of
    the outputs fits, png, votable is requested; and the list of maps is
    [None] or is not empty. *)
Theorem combine_args_invariants (args : Namespace) (config : gmap string pyval)
    (c : combined) :
  combine_args args config = Ok c ->
  py_truthy (c_npix c) = true /\ py_truthy (c_pixsize c) = true /\
  py_truthy (c_coordframe c) = true /\ py_truthy (c_ctype c) = true /\
  py_truthy (output_outdir c) = true /\ py_truthy (logger_level c) = true /\
  (py_truthy (output_fits c) = true \/ py_truthy (output_png c) = true \/
   py_truthy (output_votable c) = true) /\
  (c_maps c = PNone \/ py_truthy (c_maps c) = true).
Proof.
  unfold combine_args. intros (npix & _ & [= <-])%bind_Ok. simpl.
  repeat (split; [by apply py_or_default|]).
  split.
  - set (fits := py_or (py_or (args_fits args) _) _).
    set (png := py_or (py_or (args_png args) _) _).
    set (votable := py_or (py_or (args_votable args) _) _).
    unfold py_or at 1 2.
    destruct (py_truthy fits) eqn:Hf; [by left|].
    destruct (py_truthy png) eqn:Hp; simpl.
    + rewrite Hp. simpl. right. by left.
    + destruct (py_truthy votable) eqn:Hv; simpl; right; [by right|by left].
  - unfold py_or.
    destruct (py_truthy (args_maps args)) eqn:Ha; [rewrite Ha; by right|].
    destruct (py_truthy (config_get config "maps")) eqn:Hb; [by right|by left].
Qed.


End combine_args_properties.

Lemma combine_args_invariants_witness :
  let run := combine_args no_args ∅ in
  let c := returned run (mk_combined PNone PNone PNone PNone PNone PNone PNone
                           PNone PNone PNone) in
  run = Ok c /\
  py_truthy (c_npix c) = true /\ py_truthy (output_png c) = true /\
  c_maps c = PNone.
Proof.
  intros run c.
  assert (run = Ok c) as Hrun by (apply returned_ok; reflexivity).
  split; [exact Hrun|].
  destruct (combine_args_invariants no_args ∅ c Hrun) as (Hnpix & _).
  split; [exact Hnpix|]. split; reflexivity.
Defined.


(** ** Groups of maps *)

Section group_properties.
Context `{HP : Healpy} `{AP : !Astropy} `{WH : !WcsHelper} `{CO : !Collaborators}.

Lemma hp_to_wcs_ipx_ext (h1 h2 : header) (wcs : WCS) (shape_out : nat * nat) :
  same_pixelization h1 h2 ->
  hp_to_wcs_ipx h1 wcs shape_out = hp_to_wcs_ipx h2 wcs shape_out.
Proof.
  intros (Hn & Hnest & Hf). unfold hp_to_wcs_ipx, rotate_frame, getitem.
  by rewrite Hn, Hnest, Hf.
Qed.

(** X17: grouping by key is sound: two maps with an integer NSIDE and a
    string ORDERING that get the same key resolve, on any grid, to the same
    mask and the same pixel indices, or fail alike. *)
Theorem hpmap_key_same_ipx (m1 m2 : hp_map float) (n1 n2 : Z) (o1 o2 : string)
    (wcs : WCS) (shape_out : nat * nat) :
  m1.2 !! "NSIDE" = Some (VInt n1) -> m1.2 !! "ORDERING" = Some (VStr o1) ->
  m2.2 !! "NSIDE" = Some (VInt n2) -> m2.2 !! "ORDERING" = Some (VStr o2) ->
  hpmap_key m1 = hpmap_key m2 ->
  hp_to_wcs_ipx m1.2 wcs shape_out = hp_to_wcs_ipx m2.2 wcs shape_out.
Proof.
  intros Hn1 Ho1 Hn2 Ho2 Hkey.
  unfold hpmap_key, getitem in Hkey. rewrite Hn1, Ho1, Hn2, Ho2 in Hkey.
  simpl in Hkey.
  destruct (hp_celestial m1.2) as [f1|e1] eqn:Hf1,
           (hp_celestial m2.2) as [f2|e2] eqn:Hf2;
    simpl in Hkey; try done.
  - injection Hkey as Hkey. apply key_inj in Hkey as (-> & -> & ->).
    apply hp_to_wcs_ipx_ext.
    unfold same_pixelization. split; [by rewrite Hn1, Hn2|].
    split; [|by rewrite Hf1, Hf2].
    unfold hp_is_nest, get. by rewrite Ho1, Ho2.
  - injection Hkey as ->.
    unfold hp_to_wcs_ipx, rotate_frame, getitem.
    by rewrite Hn1, Hn2, Hf1, Hf2.
Qed.




End group_properties.

Lemma hpmap_key_same_ipx_witness :
  let m1 : hp_map float :=
    ("a.fits", InMemory [],
     {[ "NSIDE" := VInt 1; "ORDERING" := VStr "RING"; "COORDSYS" := VStr "C";
        "legend" := VStr "a" ]}) in
  let m2 : hp_map float :=
    ("b.fits", InMemory [],
     {[ "NSIDE" := VInt 1; "ORDERING" := VStr "RING"; "COORDSYS" := VStr "EQ";
        "legend" := VStr "b" ]}) in
  m1.2 !! "COORDSYS" <> m2.2 !! "COORDSYS" /\
  hpmap_key m1 = hpmap_key m2 /\
  hp_to_wcs_ipx m1.2 (grid Galactic 2) (2%nat, 2%nat)
  = hp_to_wcs_ipx m2.2 (grid Galactic 2) (2%nat, 2%nat).
Proof.
  intros m1 m2. split; [vm_compute; discriminate|].
  assert (hpmap_key m1 = hpmap_key m2) as Hkey by (vm_compute; reflexivity).
  split; [exact Hkey|].
  apply (hpmap_key_same_ipx m1 m2 1 1 "RING" "RING");
    [vm_compute; reflexivity..|exact Hkey].
Defined.



Section projection_interpolated.
Context `{HP : Healpy} `{AP : !Astropy}.


End projection_interpolated.

